(** * Coffee-shop drinks API: a shallow embedding of [backend/src/api.py]

    The Flask handlers of [api.py] are embedded as functions over an explicit
    store; the values that travel through them are Python/JSON values.  The
    handlers call [json.dumps] themselves, so the serialiser is modelled in
    full for the values of the model (integers, strings of code points below
    256, booleans, null, lists and dicts); floating-point numbers are not
    represented.  The parts of the repository that [api.py] imports
    ([database/models.py], [auth/auth.py]) are modelled from the design
    document and are marked as such. *)

From Stdlib Require Import ZArith String Ascii List Bool Lia.
From Stdlib Require Import Decimal DecimalString DecimalZ DecimalPos DecimalFacts.
Import ListNotations.

Open Scope string_scope.

(* ================================================================== *)
(** ** Python values exchanged as JSON *)

Module Json.

(** A Python value as [request.get_json()] produces it.  A dict keeps its
    insertion order, which is the order [json.dumps] prints. *)
#[warnings="-register-all"]
Inductive json : Type :=
| JNull
| JBool (b : bool)
| JInt (z : Z)
| JStr (s : string)
| JArr (l : list json)
| JObj (kvs : list (string * json)).

(** Structural equality, the way two values of the same JSON shape compare. *)
Fixpoint json_eqb (a b : json) {struct a} : bool :=
  match a, b with
  | JNull, JNull => true
  | JBool x, JBool y => Bool.eqb x y
  | JInt x, JInt y => Z.eqb x y
  | JStr x, JStr y => String.eqb x y
  | JArr xs, JArr ys =>
      (fix go (xs ys : list json) {struct xs} : bool :=
         match xs, ys with
         | [], [] => true
         | x :: xs', y :: ys' => json_eqb x y && go xs' ys'
         | _, _ => false
         end) xs ys
  | JObj xs, JObj ys =>
      (fix go (xs ys : list (string * json)) {struct xs} : bool :=
         match xs, ys with
         | [], [] => true
         | (k, x) :: xs', (k', y) :: ys' =>
             String.eqb k k' && json_eqb x y && go xs' ys'
         | _, _ => false
         end) xs ys
  | _, _ => false
  end.

(** [d.get(key)] on a dict body: the first (and, in a dict, only) binding. *)
Fixpoint assoc (key : string) (kvs : list (string * json)) : option json :=
  match kvs with
  | [] => None
  | (k, v) :: rest => if String.eqb k key then Some v else assoc key rest
  end.

(** [d[key] = v]: an existing key keeps its position, a new one goes last. *)
Fixpoint dict_set (key : string) (v : json) (kvs : list (string * json))
  : list (string * json) :=
  match kvs with
  | [] => [(key, v)]
  | (k, w) :: rest =>
      if String.eqb k key then (k, v) :: rest
      else (k, w) :: dict_set key v rest
  end.

(** [dict(pairs)], as the decoder builds an object from its members. *)
Definition py_dict (pairs : list (string * json)) : list (string * json) :=
  fold_left (fun d kv => dict_set (fst kv) (snd kv) d) pairs [].

(** The keys of every dict are pairwise distinct: the representation
    invariant of a Python value. *)
Fixpoint wf_json (v : json) : Prop :=
  match v with
  | JArr l =>
      (fix all (l : list json) : Prop :=
         match l with [] => True | x :: l' => wf_json x /\ all l' end) l
  | JObj kvs =>
      NoDup (map fst kvs) /\
      (fix all (l : list (string * json)) : Prop :=
         match l with [] => True | (_, x) :: l' => wf_json x /\ all l' end) kvs
  | _ => True
  end.

(** *** Characters *)

Definition dquote : ascii := "034"%char.
Definition bslash : ascii := "092"%char.

Definition hex_digit (n : N) : ascii :=
  match n with
  | 0 => "0" | 1 => "1" | 2 => "2" | 3 => "3" | 4 => "4" | 5 => "5"
  | 6 => "6" | 7 => "7" | 8 => "8" | 9 => "9" | 10 => "a" | 11 => "b"
  | 12 => "c" | 13 => "d" | 14 => "e" | _ => "f"
  end%N%char.

Definition hex_value (c : ascii) : option N :=
  let n := N_of_ascii c in
  if ((48 <=? n) && (n <=? 57))%N then Some (n - 48)%N
  else if ((97 <=? n) && (n <=? 102))%N then Some (n - 87)%N
  else if ((65 <=? n) && (n <=? 70))%N then Some (n - 55)%N
  else None.

(** *** [json.dumps] *)

(** One character of a string under [ensure_ascii=True]: the short escapes,
    [\u00xx] for what is not printable ASCII, the character itself
    otherwise. *)
Definition escape_char (c : ascii) : string :=
  let n := N_of_ascii c in
  if (n =? 34)%N then String bslash (String dquote EmptyString)
  else if (n =? 92)%N then String bslash (String bslash EmptyString)
  else if (n =? 10)%N then String bslash "n"
  else if (n =? 13)%N then String bslash "r"
  else if (n =? 9)%N then String bslash "t"
  else if (n =? 8)%N then String bslash "b"
  else if (n =? 12)%N then String bslash "f"
  else if ((n <? 32) || (126 <? n))%N then
    String bslash
      (String "u" (String "0" (String "0"
         (String (hex_digit (n / 16)) (String (hex_digit (n mod 16)) EmptyString)))))
  else String c EmptyString.

Fixpoint escape (s : string) : string :=
  match s with
  | EmptyString => EmptyString
  | String c s' => escape_char c ++ escape s'
  end.

Definition quoted (s : string) : string :=
  String dquote (escape s ++ String dquote EmptyString).

Definition dumps_int (z : Z) : string := NilZero.string_of_int (Z.to_int z).

(** [json.dumps(v)] with the default separators [", "] and [": "]. *)
Fixpoint dumps (v : json) : string :=
  match v with
  | JNull => "null"
  | JBool true => "true"
  | JBool false => "false"
  | JInt z => dumps_int z
  | JStr s => quoted s
  | JArr l =>
      "[" ++
      (fix items (l : list json) : string :=
         match l with
         | [] => "]"
         | [x] => dumps x ++ "]"
         | x :: l' => dumps x ++ ", " ++ items l'
         end) l
  | JObj kvs =>
      "{" ++
      (fix members (l : list (string * json)) : string :=
         match l with
         | [] => "}"
         | [(k, x)] => quoted k ++ ": " ++ dumps x ++ "}"
         | (k, x) :: l' => quoted k ++ ": " ++ dumps x ++ ", " ++ members l'
         end) kvs
  end.

(** *** [json.loads] *)

Definition is_ws (c : ascii) : bool :=
  let n := N_of_ascii c in
  ((n =? 32) || (n =? 9) || (n =? 10) || (n =? 13))%N.

Fixpoint skip_ws (s : string) : string :=
  match s with
  | String c s' => if is_ws c then skip_ws s' else s
  | EmptyString => s
  end.

Definition simple_escape (e : ascii) : option ascii :=
  let n := N_of_ascii e in
  if (n =? 34)%N then Some dquote
  else if (n =? 92)%N then Some bslash
  else if (n =? 47)%N then Some "/"%char
  else if (n =? 98)%N then Some "008"%char
  else if (n =? 102)%N then Some "012"%char
  else if (n =? 110)%N then Some "010"%char
  else if (n =? 114)%N then Some "013"%char
  else if (n =? 116)%N then Some "009"%char
  else None.

(** The code point of [\uXXXX]; one above 255 is outside the strings of the
    model and stops the scan. *)
Definition hex4 (a b c d : ascii) : option ascii :=
  match hex_value a, hex_value b, hex_value c, hex_value d with
  | Some x, Some y, Some z, Some w =>
      if ((x =? 0) && (y =? 0))%N then Some (ascii_of_N (z * 16 + w)) else None
  | _, _, _, _ => None
  end.

Definition cons_char (c : ascii) (r : option (string * string))
  : option (string * string) :=
  match r with
  | Some (s, rest) => Some (String c s, rest)
  | None => None
  end.

(** The body of a string literal, after its opening quote, up to and
    including the closing quote (the decoder's strict mode: a raw control
    character is an error). *)
Fixpoint scanstring (s : string) : option (string * string) :=
  match s with
  | EmptyString => None
  | String c s1 =>
      if (N_of_ascii c =? 34)%N then Some (EmptyString, s1)
      else if (N_of_ascii c =? 92)%N then
        match s1 with
        | EmptyString => None
        | String e s2 =>
            if (N_of_ascii e =? 117)%N then
              match s2 with
              | String h1 (String h2 (String h3 (String h4 s3))) =>
                  match hex4 h1 h2 h3 h4 with
                  | Some ch => cons_char ch (scanstring s3)
                  | None => None
                  end
              | _ => None
              end
            else
              match simple_escape e with
              | Some ch => cons_char ch (scanstring s2)
              | None => None
              end
        end
      else if (N_of_ascii c <? 32)%N then None
      else cons_char c (scanstring s1)
  end.

Definition digit_of (c : ascii) : option (uint -> uint) :=
  match N_of_ascii c with
  | 48 => Some D0 | 49 => Some D1 | 50 => Some D2 | 51 => Some D3
  | 52 => Some D4 | 53 => Some D5 | 54 => Some D6 | 55 => Some D7
  | 56 => Some D8 | 57 => Some D9 | _ => None
  end%N.

Fixpoint scan_digits (s : string) : uint * string :=
  match s with
  | EmptyString => (Nil, s)
  | String c s' =>
      match digit_of c with
      | Some d => let (u, rest) := scan_digits s' in (d u, rest)
      | None => (Nil, s)
      end
  end.

(** What follows the digits decides between an integer and a float. *)
Definition starts_fraction (s : string) : bool :=
  match s with
  | String c _ =>
      let n := N_of_ascii c in ((n =? 46) || (n =? 101) || (n =? 69))%N
  | EmptyString => false
  end.

(** An integer literal: an optional minus sign, then a single zero or a
    digit string without a leading zero.  A literal continued by a fraction
    or an exponent is a float, which the model does not have. *)
Definition split_sign (s : string) : bool * string :=
  match s with
  | String c s' => if (N_of_ascii c =? 45)%N then (true, s') else (false, s)
  | EmptyString => (false, s)
  end.

Definition scan_int (s : string) : option (Z * string) :=
  let (neg, s1) := split_sign s in
  let (u, rest) := scan_digits s1 in
  if uint_beq (unorm u) u && negb (starts_fraction rest) then
    Some (Z.of_int (if neg then Neg u else Pos u), rest)
  else None.

(** [s] without its prefix [p], when it starts with [p]. *)
Fixpoint strip_prefix (p s : string) : option string :=
  match p with
  | EmptyString => Some s
  | String a p' =>
      match s with
      | String b s' => if Ascii.eqb a b then strip_prefix p' s' else None
      | EmptyString => None
      end
  end.

(** The decoder: [scan_once] reads one value, [scan_items] the elements of
    an array after its first bracket, [scan_members] the members of an object
    from the quote of a key.  Each returns what is left of the text. *)
Fixpoint scan_once (fuel : nat) (s : string) {struct fuel}
  : option (json * string) :=
  match fuel with
  | O => None
  | S f =>
      match s with
      | EmptyString => None
      | String c s' =>
          let n := N_of_ascii c in
          if (n =? 34)%N then
            match scanstring s' with
            | Some (str, rest) => Some (JStr str, rest)
            | None => None
            end
          else if (n =? 123)%N then
            match skip_ws s' with
            | String c1 s1 =>
                if (N_of_ascii c1 =? 125)%N then Some (JObj [], s1)
                else if (N_of_ascii c1 =? 34)%N then
                  match scan_members f s1 with
                  | Some (kvs, rest) => Some (JObj (py_dict kvs), rest)
                  | None => None
                  end
                else None
            | EmptyString => None
            end
          else if (n =? 91)%N then
            match skip_ws s' with
            | String c1 s1 =>
                if (N_of_ascii c1 =? 93)%N then Some (JArr [], s1)
                else
                  match scan_items f (String c1 s1) with
                  | Some (l, rest) => Some (JArr l, rest)
                  | None => None
                  end
            | EmptyString => None
            end
          else if (n =? 110)%N then
            match strip_prefix "null" s with
            | Some rest => Some (JNull, rest)
            | None => None
            end
          else if (n =? 116)%N then
            match strip_prefix "true" s with
            | Some rest => Some (JBool true, rest)
            | None => None
            end
          else if (n =? 102)%N then
            match strip_prefix "false" s with
            | Some rest => Some (JBool false, rest)
            | None => None
            end
          else
            match scan_int s with
            | Some (z, rest) => Some (JInt z, rest)
            | None => None
            end
      end
  end

with scan_items (fuel : nat) (s : string) {struct fuel}
  : option (list json * string) :=
  match fuel with
  | O => None
  | S f =>
      match scan_once f s with
      | Some (v, rest) =>
          match skip_ws rest with
          | String c s1 =>
              if (N_of_ascii c =? 93)%N then Some ([v], s1)
              else if (N_of_ascii c =? 44)%N then
                match scan_items f (skip_ws s1) with
                | Some (l, rest') => Some (v :: l, rest')
                | None => None
                end
              else None
          | EmptyString => None
          end
      | None => None
      end
  end

with scan_members (fuel : nat) (s : string) {struct fuel}
  : option (list (string * json) * string) :=
  match fuel with
  | O => None
  | S f =>
      match scanstring s with
      | Some (key, rest) =>
          match skip_ws rest with
          | String c s1 =>
              if (N_of_ascii c =? 58)%N then
                match scan_once f (skip_ws s1) with
                | Some (v, rest1) =>
                    match skip_ws rest1 with
                    | String c2 s2 =>
                        if (N_of_ascii c2 =? 125)%N then Some ([(key, v)], s2)
                        else if (N_of_ascii c2 =? 44)%N then
                          match skip_ws s2 with
                          | String c3 s3 =>
                              if (N_of_ascii c3 =? 34)%N then
                                match scan_members f s3 with
                                | Some (l, rest') => Some ((key, v) :: l, rest')
                                | None => None
                                end
                              else None
                          | EmptyString => None
                          end
                        else None
                    | EmptyString => None
                    end
                | None => None
                end
              else None
          | EmptyString => None
          end
      | None => None
      end
  end.

(** [json.loads(s)]: one value between optional white space, nothing after
    it.  [None] is the decoder's exception, or a text whose value the model
    does not have (a number with a fraction or an exponent, [NaN],
    [Infinity], a code point above 255): on such a text the function says
    nothing about Python.  On the text [json.dumps] gives a value of the
    model it is the decoder. *)
Definition loads (s : string) : option json :=
  match scan_once (S (String.length s)) (skip_ws s) with
  | Some (v, rest) =>
      match skip_ws rest with
      | EmptyString => Some v
      | String _ _ => None
      end
  | None => None
  end.

End Json.

Import Json.

(** The local loops of [dumps], named. *)
Definition dumps_items : list json -> string :=
  fix items (l : list json) : string :=
    match l with
    | [] => "]"
    | [x] => dumps x ++ "]"
    | x :: l' => dumps x ++ ", " ++ items l'
    end.

Definition dumps_members : list (string * json) -> string :=
  fix members (l : list (string * json)) : string :=
    match l with
    | [] => "}"
    | [(k, x)] => quoted k ++ ": " ++ dumps x ++ "}"
    | (k, x) :: l' => quoted k ++ ": " ++ dumps x ++ ", " ++ members l'
    end.

(* ================================================================== *)
(** ** The token authorizer *)

Module Auth.

(** Modelled from the spec: [auth/auth.py] is missing; the kinds of
    authorization failure are the nine outcomes of the design document's
    section 4.1, in its order. *)
Inductive failure : Type :=
| NoAuthorizationHeader
| InvalidHeaderFormat
| MalformedTokenHeader
| KeyNotFound
| TokenExpired
| InvalidClaims
| InvalidHeader
| NoPermissionsInPayload
| Unauthorized.

(** Modelled from the spec: [AuthError] of the missing [auth/auth.py], the
    exception the handler of [api.py] reads [error['code']] and
    [error['description']] from, with its status code. *)
Record AuthError : Type := {
  code : failure;
  description : string;
  status_code : Z
}.

(** Modelled from the spec: the message of each failure is the name the
    design document gives it. *)
Definition describe (k : failure) : string :=
  match k with
  | NoAuthorizationHeader => "no authorization header"
  | InvalidHeaderFormat => "invalid header format"
  | MalformedTokenHeader => "malformed token header"
  | KeyNotFound => "key not found"
  | TokenExpired => "token expired"
  | InvalidClaims => "invalid claims"
  | InvalidHeader => "invalid header"
  | NoPermissionsInPayload => "no permissions in payload"
  | Unauthorized => "unauthorized"
  end.

(** Modelled from the spec: the two permission failures are reported as
    forbidden, the others as unauthorized. *)
Definition status_of (k : failure) : Z :=
  match k with
  | NoPermissionsInPayload | Unauthorized => 403
  | _ => 401
  end%Z.

Definition auth_error (k : failure) : AuthError :=
  {| code := k; description := describe k; status_code := status_of k |}.

(** The decoded claims of a verified token: the permission list, when the
    token has one. *)
Record payload : Type := { permissions : option (list string) }.

Inductive verification : Type :=
| Expired
| ClaimsMismatch
| OtherFailure
| Verified (claims : payload).

(** The external collaborators of the authorizer: the decoding of a
    credential's header segment, the signing authority's current key set
    (by key identifier) and the verification of a credential under a key. *)
Record authority : Type := {
  unverified_kid : string -> option string;
  key_set : list string;
  verify : string -> string -> verification
}.

Definition lower_char (c : ascii) : ascii :=
  let n := N_of_ascii c in
  if ((65 <=? n) && (n <=? 90))%N then ascii_of_N (n + 32) else c.

Fixpoint lower (s : string) : string :=
  match s with
  | EmptyString => EmptyString
  | String c s' => String (lower_char c) (lower s')
  end.

(** The space-separated parts of a header. *)
Fixpoint split_spaces (s : string) : list string :=
  match s with
  | EmptyString => [EmptyString]
  | String c s' =>
      if (N_of_ascii c =? 32)%N then EmptyString :: split_spaces s'
      else
        match split_spaces s' with
        | w :: ws => String c w :: ws
        | [] => [String c EmptyString]
        end
  end.

(** Modelled from the spec: steps 1 and 2 of section 4.1. *)
Definition get_token_auth_header (header : option string) : AuthError + string :=
  match header with
  | None => inl (auth_error NoAuthorizationHeader)
  | Some h =>
      match split_spaces h with
      | [scheme; token] =>
          if String.eqb (lower scheme) "bearer" then inr token
          else inl (auth_error InvalidHeaderFormat)
      | _ => inl (auth_error InvalidHeaderFormat)
      end
  end.

(** Modelled from the spec: steps 3 to 5 of section 4.1. *)
Definition verify_decode_jwt (idp : authority) (token : string)
  : AuthError + payload :=
  match unverified_kid idp token with
  | None => inl (auth_error MalformedTokenHeader)
  | Some kid =>
      if existsb (String.eqb kid) (key_set idp) then
        match verify idp token kid with
        | Expired => inl (auth_error TokenExpired)
        | ClaimsMismatch => inl (auth_error InvalidClaims)
        | OtherFailure => inl (auth_error InvalidHeader)
        | Verified claims => inr claims
        end
      else inl (auth_error KeyNotFound)
  end.

(** Modelled from the spec: step 6 of section 4.1. *)
Definition check_permissions (permission : string) (claims : payload)
  : AuthError + unit :=
  match permissions claims with
  | None => inl (auth_error NoPermissionsInPayload)
  | Some l =>
      if existsb (String.eqb permission) l then inr tt
      else inl (auth_error Unauthorized)
  end.

(** Modelled from the spec: the whole check of section 4.1, which the
    decorator [requires_auth(permission)] of the missing [auth/auth.py] runs
    before the route's function. *)
Definition authorize (idp : authority) (permission : string)
  (header : option string) : AuthError + payload :=
  match get_token_auth_header header with
  | inl e => inl e
  | inr token =>
      match verify_decode_jwt idp token with
      | inl e => inl e
      | inr claims =>
          match check_permissions permission claims with
          | inl e => inl e
          | inr _ => inr claims
          end
      end
  end.

End Auth.

(* ================================================================== *)
(** ** The drink store *)

Module Store.

(** Modelled from the spec: the [Drink] row of the missing
    [database/models.py].  [title] holds the Python value the handler
    assigned, [recipe] the serialised text. *)
Record Drink : Type := {
  drink_id : Z;
  title : json;
  recipe : string
}.

(** Modelled from the spec: the table in its storage order, and the next
    identifier the store will generate. *)
Record store : Type := {
  rows : list Drink;
  next_id : Z
}.

(** Modelled from the spec: the table after [db_drop_and_create_all()]. *)
Definition empty : store := {| rows := []; next_id := 1 |}.

(** Modelled from the spec: [Drink.query.all()]. *)
Definition query_all (st : store) : list Drink := rows st.

(** Modelled from the spec: [Drink.query.filter_by(title=t).first()]. *)
Definition first_by_title (t : json) (st : store) : option Drink :=
  find (fun d => json_eqb (title d) t) (rows st).

(** Modelled from the spec: [Drink.query.filter(Drink.id == i).one_or_none()]. *)
Definition one_or_none_by_id (i : Z) (st : store) : option Drink :=
  find (fun d => Z.eqb (drink_id d) i) (rows st).

(** Modelled from the spec: [Drink(title, recipe).insert()]: the row gets
    the next identifier and goes last. *)
Definition insert (t : json) (r : string) (st : store) : Drink * store :=
  let d := {| drink_id := next_id st; title := t; recipe := r |} in
  (d, {| rows := rows st ++ [d]; next_id := (next_id st + 1)%Z |}).

(** Modelled from the spec: [drink.update()]: the row of that identifier is
    replaced, in place. *)
Definition update (d : Drink) (st : store) : store :=
  {| rows := map (fun x => if Z.eqb (drink_id x) (drink_id d) then d else x)
                 (rows st);
     next_id := next_id st |}.

(** Modelled from the spec: [drink.delete()]. *)
Definition delete (d : Drink) (st : store) : store :=
  {| rows := filter (fun x => negb (Z.eqb (drink_id x) (drink_id d))) (rows st);
     next_id := next_id st |}.

(** Modelled from the spec: the detailed view, which parses the stored text
    at read time; [None] is the server-side fault of a parse failure. *)
Definition long (d : Drink) : option json :=
  match loads (recipe d) with
  | Some r =>
      Some (JObj [("id", JInt (drink_id d)); ("title", title d); ("recipe", r)])
  | None => None
  end.

(** Modelled from the spec: an ingredient entry without its name. *)
Definition short_entry (r : json) : option json :=
  match r with
  | JObj kvs =>
      match assoc "color" kvs, assoc "parts" kvs with
      | Some c, Some p => Some (JObj [("color", c); ("parts", p)])
      | _, _ => None
      end
  | _ => None
  end.

Fixpoint traverse {A B : Type} (f : A -> option B) (l : list A)
  : option (list B) :=
  match l with
  | [] => Some []
  | x :: l' =>
      match f x, traverse f l' with
      | Some y, Some ys => Some (y :: ys)
      | _, _ => None
      end
  end.

(** Modelled from the spec: the summary view; a stored text that is not a
    sequence of ingredient entries is a server-side fault as well. *)
Definition short (d : Drink) : option json :=
  match loads (recipe d) with
  | Some (JArr l) =>
      match traverse short_entry l with
      | Some entries =>
          Some (JObj [("id", JInt (drink_id d)); ("title", title d);
                      ("recipe", JArr entries)])
      | None => None
      end
  | _ => None
  end.

End Store.

(* ================================================================== *)
(** ** The routes of [api.py] *)

Module Api.

Import Auth Store.

(** How a view function ends: it returns a body, calls [abort(code)],
    raises [AuthError], or raises anything else. *)
Inductive outcome (A : Type) : Type :=
| Ok (a : A)
| Abort (code : Z)
| Raise (e : AuthError)
| Fault.

Arguments Ok {A} a.
Arguments Abort {A} code.
Arguments Raise {A} e.
Arguments Fault {A}.

(** A view function runs against the committed table. *)
Definition M (A : Type) : Type := store -> outcome A * store.

Definition ret {A : Type} (a : A) : M A := fun st => (Ok a, st).

Definition bind {A B : Type} (m : M A) (k : A -> M B) : M B :=
  fun st =>
    match m st with
    | (Ok a, st') => k a st'
    | (Abort c, st') => (Abort c, st')
    | (Raise e, st') => (Raise e, st')
    | (Fault, st') => (Fault, st')
    end.

Notation "x <- m ;; k" := (bind m (fun x => k))
  (at level 61, m at next level, right associativity).
Notation "m ;;; k" := (bind m (fun _ => k))
  (at level 61, right associativity).

Definition abort {A : Type} (code : Z) : M A := fun st => (Abort code, st).
Definition raise {A : Type} (e : AuthError) : M A := fun st => (Raise e, st).
Definition query {A : Type} (q : store -> A) : M A := fun st => (Ok (q st), st).
Definition commit (f : store -> store) : M unit := fun st => (Ok tt, f st).

(** A call of the model layer that may raise. *)
Definition or_fault {A : Type} (o : option A) : M A :=
  fun st => match o with Some a => (Ok a, st) | None => (Fault, st) end.

(** [d.get(key)]: the value under [key], [None] without one. *)
Definition dict_get (kvs : list (string * json)) (key : string) : json :=
  match assoc key kvs with
  | Some v => v
  | None => JNull
  end.

(** [body.get]: the attribute exists on a dict only. *)
Definition attr_get (body : json) : option (string -> json) :=
  match body with
  | JObj kvs => Some (dict_get kvs)
  | _ => None
  end.

(** [v == s] for a Python value [v] and a [str]. *)
Definition eq_str (v : json) (s : string) : bool :=
  match v with
  | JStr t => String.eqb t s
  | _ => false
  end.

(** [bool(row)] for the result of [first()]. *)
Definition truthy {A : Type} (o : option A) : bool :=
  match o with Some _ => true | None => false end.

Definition jsonify (kvs : list (string * json)) : json := JObj kvs.

Definition get_drinks : M json :=
  drinks <- query query_all ;;
  drink_list <- or_fault (traverse short drinks) ;;
  ret (jsonify [("success", JBool true); ("drinks", JArr drink_list)]).

Definition get_drinks_detail (payload : Auth.payload) : M json :=
  drinks <- query query_all ;;
  drink_list <- or_fault (traverse long drinks) ;;
  ret (jsonify [("success", JBool true); ("drinks", JArr drink_list)]).

Definition create_drinks (payload : Auth.payload) (request_json : json)
  : M json :=
  body_get <- or_fault (attr_get request_json) ;;
  let new_title := body_get "title" in
  let new_recipe := dumps (body_get "recipe") in
  if eq_str new_title EmptyString || String.eqb new_recipe EmptyString
  then abort 422
  else
    found <- query (first_by_title new_title) ;;
    if truthy found then abort 400
    else
      drink <- (fun st => let (d, st') := insert new_title new_recipe st in
                          (Ok d, st')) ;;
      view <- or_fault (long drink) ;;
      ret (jsonify [("success", JBool true); ("drinks", JArr [view])]).

Definition patch_drinks (payload : Auth.payload) (id : Z) (request_json : json)
  : M json :=
  found <- query (one_or_none_by_id id) ;;
  match found with
  | None => abort 404
  | Some drink =>
      body_get <- or_fault (attr_get request_json) ;;
      let new_title := body_get "title" in
      let new_recipe := dumps (body_get "recipe") in
      let drink :=
        if negb (eq_str new_title EmptyString)
        then {| drink_id := drink_id drink; title := new_title;
                recipe := recipe drink |}
        else drink in
      let drink :=
        if negb (String.eqb new_recipe EmptyString)
        then {| drink_id := drink_id drink; title := title drink;
                recipe := new_recipe |}
        else drink in
      commit (update drink) ;;;
      view <- or_fault (long drink) ;;
      ret (jsonify [("success", JBool true); ("drinks", JArr [view])])
  end.

Definition delete_drinks (payload : Auth.payload) (id : Z) : M json :=
  found <- query (one_or_none_by_id id) ;;
  match found with
  | None => abort 404
  | Some drink =>
      commit (delete drink) ;;;
      ret (jsonify [("success", JBool true); ("deleted", JInt id)])
  end.

(** *** Error handlers *)

Record response : Type := { status : Z; body : json }.

Definition error_body (code : Z) (message : string) : json :=
  jsonify [("success", JBool false); ("error", JInt code);
           ("message", JStr message)].

Definition unprocessable : response :=
  {| status := 422; body := error_body 422 "unprocessable" |}.

Definition resource_not_found : response :=
  {| status := 404; body := error_body 404 "resource not found" |}.

(** The handler registered for 400; the source names it
    [resource_not_found] a second time. *)
Definition resource_not_found_400 : response :=
  {| status := 400; body := error_body 400 "bad request" |}.

Definition authorization_errors (error : AuthError) : response :=
  {| status := 401; body := error_body 401 (description error) |}.

(** *** Requests *)

Inductive route : Type :=
| GET_drinks
| GET_drinks_detail
| POST_drinks
| PATCH_drinks (id : Z)
| DELETE_drinks (id : Z).

Record request : Type := {
  target : route;
  authorization : option string;
  get_json : json
}.

(** The decorator [@requires_auth(permission)]: the wrapped function runs
    with the decoded claims, or [AuthError] is raised before it. *)
Definition requires_auth (idp : authority) (permission : string)
  (f : Auth.payload -> M json) (req : request) : M json :=
  match authorize idp permission (authorization req) with
  | inl e => raise e
  | inr claims => f claims
  end.

Definition view (idp : authority) (req : request) : M json :=
  match target req with
  | GET_drinks => get_drinks
  | GET_drinks_detail =>
      requires_auth idp "get:drinks-detail" get_drinks_detail req
  | POST_drinks =>
      requires_auth idp "post:drinks"
        (fun payload => create_drinks payload (get_json req)) req
  | PATCH_drinks id =>
      requires_auth idp "patch:drinks"
        (fun payload => patch_drinks payload id (get_json req)) req
  | DELETE_drinks id =>
      requires_auth idp "delete:drinks"
        (fun payload => delete_drinks payload id) req
  end.

(** The response the application's own functions produce for an outcome:
    status 200 with the returned body, or the registered error handler's
    response.  An exception with no handler in [api.py] leaves the
    application ([None]). *)
Definition respond (o : outcome json) : option response :=
  match o with
  | Ok b => Some {| status := 200; body := b |}
  | Abort c =>
      if (c =? 422)%Z then Some unprocessable
      else if (c =? 404)%Z then Some resource_not_found
      else if (c =? 400)%Z then Some resource_not_found_400
      else None
  | Raise e => Some (authorization_errors e)
  | Fault => None
  end.

(** Running a view function against the table and rendering how it ends. *)
Definition run (h : M json) (st : store) : option response * store :=
  let (o, st') := h st in (respond o, st').

Definition serve (idp : authority) (req : request) (st : store)
  : option response * store :=
  run (view idp req) st.

(** The stores the application can be in: those a sequence of requests
    leads to. *)
Inductive reachable (idp : authority) (st0 : store) : store -> Prop :=
| reach_refl : reachable idp st0 st0
| reach_step st req :
    reachable idp st0 st ->
    reachable idp st0 (snd (serve idp req st)).

End Api.

Import Auth Store Api.

(** *** Sample data *)

Definition idp0 : authority :=
  {| unverified_kid := fun t => Some "k1";
     key_set := ["k1"];
     verify := fun t k =>
       if String.eqb t "barista" then
         Verified {| permissions := Some ["get:drinks-detail"] |}
       else if String.eqb t "manager" then
         Verified {| permissions :=
                       Some ["get:drinks-detail"; "post:drinks";
                             "patch:drinks"; "delete:drinks"] |}
       else if String.eqb t "old" then Expired
       else OtherFailure |}.

Definition manager : Auth.payload :=
  {| permissions :=
       Some ["get:drinks-detail"; "post:drinks"; "patch:drinks";
             "delete:drinks"] |}.

Definition water_recipe : json :=
  JArr [JObj [("name", JStr "water"); ("color", JStr "blue");
              ("parts", JInt 1)]].

Definition water : json :=
  JObj [("title", JStr "Water"); ("recipe", water_recipe)].

Definition as_manager (r : route) (b : json) : request :=
  {| target := r; authorization := Some "Bearer manager"; get_json := b |}.

Definition water_row : Drink :=
  {| drink_id := 1; title := JStr "Water"; recipe := dumps water_recipe |}.

(** The table after one [POST /drinks] of [water]. *)
Definition st_water : store := {| rows := [water_row]; next_id := 2 |}.

(** A body without a recipe, and the table after it was posted. *)
Definition tea : json := JObj [("title", JStr "Tea")].

Definition tea_row : Drink :=
  {| drink_id := 1; title := JStr "Tea"; recipe := "null" |}.

Definition st_tea : store := {| rows := [tea_row]; next_id := 2 |}.


(** A request without credentials. *)
Definition anonymous (r : route) : request :=
  {| target := r; authorization := None; get_json := JNull |}.

(* ================================================================== *)
(** ** Vocabulary of the statements *)

(** The next character, if any, ends a number: it is a comma or a closing
    bracket. *)
Definition delimited (s : string) : bool :=
  match s with
  | EmptyString => true
  | String c _ =>
      let n := N_of_ascii c in ((n =? 44) || (n =? 93) || (n =? 125))%N
  end.

(** The first character of a printed integer: a digit or the minus sign. *)
Definition int_start (c : ascii) : bool :=
  match digit_of c with
  | Some _ => true
  | None => (N_of_ascii c =? 45)%N
  end.

(** The decoder reads [v] back from its text, given fuel for the length of
    the text and a delimiter after it. *)
Definition reads_back (v : json) : Prop :=
  forall f rest,
    delimited rest = true ->
    String.length (dumps v) <= f ->
    scan_once f (dumps v ++ rest) = Some (v, rest).

(** The invariant of the table: identifiers are distinct and below the next
    one to be generated, and no title is the empty string. *)
Definition wf_store (st : store) : Prop :=
  NoDup (map drink_id (rows st)) /\
  (forall d, In d (rows st) -> (drink_id d < next_id st)%Z) /\
  (forall d, In d (rows st) -> title d <> JStr EmptyString).

(** The row [create_drinks] inserts. *)
Definition created (st : store) (t : json) (r : string) : Drink :=
  {| drink_id := next_id st; title := t; recipe := r |}.

(** The row [patch_drinks] writes back. *)
Definition patched (d : Drink) (kvs : list (string * json)) : Drink :=
  {| drink_id := drink_id d;
     title := if eq_str (dict_get kvs "title") EmptyString then title d
              else dict_get kvs "title";
     recipe := dumps (dict_get kvs "recipe") |}.

(** The text [json.dumps] gives the empty string: two quotes. *)
Definition two_quotes : string := String dquote (String dquote EmptyString).

(** The entries of the [drinks] array of a response body. *)
Definition drinks_of (b : json) : list json :=
  match b with
  | JObj kvs =>
      match assoc "drinks" kvs with
      | Some (JArr l) => l
      | _ => []
      end
  | _ => []
  end.

(** The value of a field of an entry. *)
Definition field (key : string) (v : json) : option json :=
  match v with
  | JObj kvs => assoc key kvs
  | _ => None
  end.





(** What the client receives: the application's own response, or, when the
    view function ends in a way for which [api.py] registers no handler, the
    framework's error page, an HTML document and not a JSON body, with the
    status of the abort or 500 for any other exception. *)
Inductive reply : Type :=
| AppResponse (r : response)
| ErrorPage (code : Z).

Definition deliver (o : outcome json) : reply :=
  match respond o with
  | Some r => AppResponse r
  | None =>
      match o with
      | Abort c => ErrorPage c
      | _ => ErrorPage 500
      end
  end.

Definition answer (idp : authority) (req : request) (st : store)
  : reply * store :=
  let (o, st') := view idp req st in (deliver o, st').


(** The stored text of a row is the serialisation of a Python value. *)
Definition dumped (d : Drink) : Prop :=
  exists v, wf_json v /\ recipe d = dumps v.

(** The detailed view of a row whose text serialises [v]. *)
Definition detailed (d : Drink) (e : json) : Prop :=
  exists v,
    recipe d = dumps v /\
    e = JObj [("id", JInt (drink_id d)); ("title", title d); ("recipe", v)].

(** The tables a sequence of requests leads to when every request body is
    a Python value (the keys of its dicts are distinct), as
    [request.get_json()] delivers it. *)
Inductive reachable_py (idp : authority) (st0 : store) : store -> Prop :=
| reach_py_refl : reachable_py idp st0 st0
| reach_py_step st req :
    reachable_py idp st0 st ->
    wf_json (get_json req) ->
    reachable_py idp st0 (snd (serve idp req st)).

(* ================================================================== *)
(** ** Facts about the JSON codec *)

Section JsonInduction.

Variable P : json -> Prop.
Hypothesis HNull : P JNull.
Hypothesis HBool : forall b, P (JBool b).
Hypothesis HInt : forall z, P (JInt z).
Hypothesis HStr : forall s, P (JStr s).
Hypothesis HArr : forall l, Forall P l -> P (JArr l).
Hypothesis HObj : forall kvs, Forall (fun kv => P (snd kv)) kvs -> P (JObj kvs).

(** Induction over a value with the hypotheses for the elements of a list
    and the values of a dict. *)
Lemma json_nested_ind : forall v, P v.
Proof.
  fix IH 1. intros [ | b | z | s | l | kvs ].
  - exact HNull.
  - apply HBool.
  - apply HInt.
  - apply HStr.
  - apply HArr. induction l as [ | x l IHl ]; constructor.
    + apply IH.
    + exact IHl.
  - apply HObj. induction kvs as [ | [k x] kvs IHl ]; constructor.
    + apply IH.
    + exact IHl.
Qed.

End JsonInduction.

Lemma json_eqb_refl (v : json) : json_eqb v v = true.
Proof.
  induction v as [ | b | z | s | l IH | kvs IH ] using json_nested_ind; simpl.
  - reflexivity.
  - destruct b; reflexivity.
  - apply Z.eqb_refl.
  - apply String.eqb_refl.
  - induction IH as [ | x l Hx _ IHl ]; [ reflexivity | ].
    rewrite Hx. exact IHl.
  - induction IH as [ | [k x] l Hx _ IHl ]; [ reflexivity | ].
    simpl in Hx. rewrite String.eqb_refl, Hx. exact IHl.
Qed.

Lemma json_eqb_true (a b : json) : json_eqb a b = true -> a = b.
Proof.
  revert b.
  induction a as [ | x | x | x | l IH | kvs IH ] using json_nested_ind;
    intros [ | y | y | y | l' | kvs' ]; simpl; try discriminate.
  - reflexivity.
  - intros H. apply Bool.eqb_prop in H. now subst.
  - intros H. apply Z.eqb_eq in H. now subst.
  - intros H. apply String.eqb_eq in H. now subst.
  - intros H. f_equal. revert l' H.
    induction IH as [ | x l Hx _ IHl ]; intros [ | y l' ] H;
      try discriminate; [ reflexivity | ].
    apply andb_true_iff in H. destruct H as [H1 H2].
    f_equal; [ now apply Hx | now apply IHl ].
  - intros H. f_equal. revert kvs' H.
    induction IH as [ | [k x] l Hx _ IHl ]; intros [ | [k' y] l' ] H;
      try discriminate; [ reflexivity | ].
    apply andb_true_iff in H. destruct H as [H H3].
    apply andb_true_iff in H. destruct H as [H1 H2].
    apply String.eqb_eq in H1. simpl in Hx. apply Hx in H2. subst.
    f_equal. now apply IHl.
Qed.

Lemma json_eqb_eq (a b : json) : json_eqb a b = true <-> a = b.
Proof.
  split; [ apply json_eqb_true | intros ->; apply json_eqb_refl ].
Qed.

(** *** Strings *)

Lemma append_assoc (a b c : string) : ((a ++ b) ++ c = a ++ (b ++ c))%string.
Proof. induction a as [ | x a IH ]; simpl; [ reflexivity | now rewrite IH ]. Qed.

Lemma append_nil_r (a : string) : (a ++ EmptyString)%string = a.
Proof. induction a as [ | x a IH ]; simpl; [ reflexivity | now rewrite IH ]. Qed.

Lemma append_length (a b : string) :
  String.length (a ++ b) = String.length a + String.length b.
Proof. induction a as [ | x a IH ]; simpl; [ reflexivity | now rewrite IH ]. Qed.

(** One escaped character reads back as the character. *)
Lemma scanstring_escape_char (c : ascii) (t : string) :
  scanstring (escape_char c ++ t) = cons_char c (scanstring t).
Proof.
  destruct c as [[|] [|] [|] [|] [|] [|] [|] [|]]; reflexivity.
Qed.

(** A quoted string reads back, whatever follows its closing quote. *)
Lemma scanstring_escape (s rest : string) :
  scanstring (escape s ++ String dquote rest) = Some (s, rest).
Proof.
  induction s as [ | c s IH ]; simpl.
  - reflexivity.
  - rewrite append_assoc, scanstring_escape_char, IH. reflexivity.
Qed.

Lemma delimited_no_digit (s : string) :
  delimited s = true -> scan_digits s = (Nil, s).
Proof.
  destruct s as [ | c s ]; [ reflexivity | ].
  destruct c as [[|] [|] [|] [|] [|] [|] [|] [|]]; intros H;
    vm_compute in H; try discriminate H; reflexivity.
Qed.

Lemma delimited_no_fraction (s : string) :
  delimited s = true -> starts_fraction s = false.
Proof.
  destruct s as [ | c s ]; [ reflexivity | ].
  destruct c as [[|] [|] [|] [|] [|] [|] [|] [|]]; intros H;
    vm_compute in H; try discriminate H; reflexivity.
Qed.

Lemma scan_digits_uint (u : uint) (rest : string) :
  delimited rest = true ->
  scan_digits (NilEmpty.string_of_uint u ++ rest) = (u, rest).
Proof.
  intros H. induction u as [ | u IH | u IH | u IH | u IH | u IH | u IH
                             | u IH | u IH | u IH | u IH ];
    simpl; try (rewrite IH; reflexivity).
  now apply delimited_no_digit.
Qed.

Lemma unorm_to_uint (p : positive) : unorm (Pos.to_uint p) = Pos.to_uint p.
Proof.
  rewrite <- DecimalPos.Unsigned.to_of, DecimalPos.Unsigned.of_to.
  reflexivity.
Qed.

Lemma uint_beq_refl (u : uint) : uint_beq u u = true.
Proof. now apply internal_uint_dec_lb. Qed.

(** A printed positive number starts with a digit. *)
Lemma string_of_uint_head (p : positive) :
  exists c s, NilEmpty.string_of_uint (Pos.to_uint p) = String c s /\
              (N_of_ascii c =? 45)%N = false /\
              digit_of c <> None.
Proof.
  pose proof (DecimalPos.Unsigned.to_uint_nonnil p) as H.
  destruct (Pos.to_uint p); try contradiction; simpl;
    eexists; eexists; (split; [ reflexivity | split; [ reflexivity | discriminate ] ]).
Qed.

(** A printed integer reads back. *)
Lemma scan_int_dumps (z : Z) (rest : string) :
  delimited rest = true ->
  scan_int (dumps_int z ++ rest) = Some (z, rest).
Proof.
  intros H. unfold dumps_int, scan_int.
  destruct z as [ | p | p ]; simpl Z.to_int; simpl NilZero.string_of_int.
  - simpl. rewrite (delimited_no_digit _ H). simpl.
    rewrite (delimited_no_fraction _ H). reflexivity.
  - pose proof (DecimalPos.Unsigned.to_uint_nonnil p) as Hn.
    assert (E' : NilZero.string_of_uint (Pos.to_uint p)
                 = NilEmpty.string_of_uint (Pos.to_uint p))
      by (destruct (Pos.to_uint p); [ contradiction | reflexivity .. ]).
    rewrite E'.
    assert (Hs : split_sign (NilEmpty.string_of_uint (Pos.to_uint p) ++ rest)
                 = (false, (NilEmpty.string_of_uint (Pos.to_uint p) ++ rest)%string)).
    { destruct (string_of_uint_head p) as (c & s & E & Hc & _).
      rewrite E. simpl. now rewrite Hc. }
    rewrite Hs.
    rewrite (scan_digits_uint _ _ H), unorm_to_uint, uint_beq_refl.
    rewrite (delimited_no_fraction _ H). simpl.
    now rewrite <- (DecimalZ.of_to (Z.pos p)).
  - pose proof (DecimalPos.Unsigned.to_uint_nonnil p) as Hn.
    assert (E' : NilZero.string_of_uint (Pos.to_uint p)
                 = NilEmpty.string_of_uint (Pos.to_uint p))
      by (destruct (Pos.to_uint p); [ contradiction | reflexivity .. ]).
    rewrite E'. simpl.
    rewrite (scan_digits_uint _ _ H), unorm_to_uint, uint_beq_refl.
    rewrite (delimited_no_fraction _ H). simpl.
    now rewrite <- (DecimalZ.of_to (Z.neg p)).
Qed.

(** *** The decoder on the output of the encoder *)

Lemma dumps_int_head (z : Z) :
  exists c s, dumps_int z = String c s /\ int_start c = true.
Proof.
  unfold dumps_int. destruct z as [ | p | p ]; simpl.
  - eexists; eexists; split; reflexivity.
  - pose proof (DecimalPos.Unsigned.to_uint_nonnil p) as H.
    destruct (Pos.to_uint p); try contradiction; simpl;
      eexists; eexists; split; reflexivity.
  - eexists; eexists; split; reflexivity.
Qed.

Lemma int_start_not_ws (c : ascii) :
  int_start c = true -> is_ws c = false /\ (N_of_ascii c =? 93)%N = false.
Proof.
  destruct c as [[|] [|] [|] [|] [|] [|] [|] [|]]; intros H;
    vm_compute in H; try discriminate H; split; reflexivity.
Qed.

Lemma scan_once_int_start (f : nat) (c : ascii) (t : string) :
  int_start c = true ->
  scan_once (S f) (String c t) =
  match scan_int (String c t) with
  | Some (z, rest) => Some (JInt z, rest)
  | None => None
  end.
Proof.
  destruct c as [[|] [|] [|] [|] [|] [|] [|] [|]]; intros H;
    vm_compute in H; try discriminate H; reflexivity.
Qed.

(** The text of a value starts with a character that is neither white space
    nor a closing bracket. *)
Lemma dumps_head (v : json) :
  exists c s, dumps v = String c s /\ is_ws c = false /\
              (N_of_ascii c =? 93)%N = false.
Proof.
  destruct v as [ | [ | ] | z | s | l | kvs ];
    try (eexists; eexists; split; [ reflexivity | split; reflexivity ]).
  destruct (dumps_int_head z) as (c & s & E & H).
  exists c, s. split; [ exact E | now apply int_start_not_ws ].
Qed.

Lemma skip_ws_dumps (v : json) (t : string) :
  skip_ws (dumps v ++ t) = (dumps v ++ t)%string.
Proof.
  destruct (dumps_head v) as (c & s & E & Hw & _).
  rewrite E. simpl. now rewrite Hw.
Qed.

Lemma dumps_items_one (x : json) : dumps_items [x] = (dumps x ++ "]")%string.
Proof. reflexivity. Qed.

Lemma dumps_items_more (x y : json) (l : list json) :
  dumps_items (x :: y :: l) = (dumps x ++ ", " ++ dumps_items (y :: l))%string.
Proof. reflexivity. Qed.

Lemma dumps_members_one (k : string) (x : json) :
  dumps_members [(k, x)] = (quoted k ++ ": " ++ dumps x ++ "}")%string.
Proof. reflexivity. Qed.

Lemma dumps_members_more (k : string) (x : json) (kv : string * json)
  (l : list (string * json)) :
  dumps_members ((k, x) :: kv :: l)
  = (quoted k ++ ": " ++ dumps x ++ ", " ++ dumps_members (kv :: l))%string.
Proof. destruct kv. reflexivity. Qed.

Lemma scan_items_step (f : nat) (s : string) :
  scan_items (S f) s =
  match scan_once f s with
  | Some (v, rest) =>
      match skip_ws rest with
      | String c s1 =>
          if (N_of_ascii c =? 93)%N then Some ([v], s1)
          else if (N_of_ascii c =? 44)%N then
            match scan_items f (skip_ws s1) with
            | Some (l, rest') => Some (v :: l, rest')
            | None => None
            end
          else None
      | EmptyString => None
      end
  | None => None
  end.
Proof. reflexivity. Qed.

Lemma scan_items_dumps (l : list json) :
  l <> [] ->
  Forall reads_back l ->
  forall f rest,
    String.length (dumps_items l) <= f ->
    scan_items f (dumps_items l ++ rest) = Some (l, rest).
Proof.
  intros Hne H. induction H as [ | x l Hx Hl IH ]; [ contradiction | ].
  intros f rest Hlen. destruct l as [ | y l ].
  - rewrite dumps_items_one in *. rewrite append_length in Hlen. simpl in Hlen.
    destruct f as [ | f ]; [ lia | ].
    rewrite scan_items_step, append_assoc.
    rewrite (Hx f); [ | reflexivity | lia ].
    reflexivity.
  - rewrite dumps_items_more in *.
    rewrite !append_length in Hlen.
    change (String.length ", ") with 2 in Hlen.
    destruct f as [ | f ]; [ lia | ].
    rewrite scan_items_step, !append_assoc.
    rewrite (Hx f); [ | reflexivity | lia ].
    assert (E : skip_ws (", " ++ dumps_items (y :: l) ++ rest)
                = String "," (String " " (dumps_items (y :: l) ++ rest)))
      by reflexivity.
    rewrite E. clear E.
    assert (E : skip_ws (String " " (dumps_items (y :: l) ++ rest))
                = (dumps_items (y :: l) ++ rest)%string).
    { destruct l as [ | y' l ].
      - rewrite dumps_items_one, append_assoc. simpl. apply skip_ws_dumps.
      - rewrite dumps_items_more, append_assoc. simpl. apply skip_ws_dumps. }
    simpl N.eqb. cbv iota. rewrite E.
    rewrite IH; [ reflexivity | discriminate | lia ].
Qed.

Lemma scan_members_step (f : nat) (t key r : string) :
  scanstring t = Some (key, String ":" (String " " r)) ->
  scan_members (S f) t =
  match scan_once f (skip_ws r) with
  | Some (v, rest1) =>
      match skip_ws rest1 with
      | String c2 s2 =>
          if (N_of_ascii c2 =? 125)%N then Some ([(key, v)], s2)
          else if (N_of_ascii c2 =? 44)%N then
            match skip_ws s2 with
            | String c3 s3 =>
                if (N_of_ascii c3 =? 34)%N then
                  match scan_members f s3 with
                  | Some (l, rest') => Some ((key, v) :: l, rest')
                  | None => None
                  end
                else None
            | EmptyString => None
            end
          else None
      | EmptyString => None
      end
  | None => None
  end.
Proof. intros H. simpl. rewrite H. reflexivity. Qed.

Lemma quoted_length (k : string) : 2 <= String.length (quoted k).
Proof. unfold quoted. simpl. rewrite append_length. simpl. lia. Qed.

Lemma scan_members_dumps (l : list (string * json)) :
  l <> [] ->
  Forall (fun kv => reads_back (snd kv)) l ->
  forall f rest,
    String.length (dumps_members l) <= f ->
    exists t,
      (dumps_members l ++ rest)%string = String dquote t /\
      scan_members f t = Some (l, rest).
Proof.
  intros Hne H. induction H as [ | [k x] l Hx Hl IH ]; [ contradiction | ].
  simpl in Hx. intros f rest Hlen. destruct l as [ | kv l ].
  - rewrite dumps_members_one in *.
    pose proof (quoted_length k) as Hq.
    rewrite !append_length in Hlen. change (String.length ": ") with 2 in Hlen.
    destruct f as [ | f ]; [ lia | ].
    exists (escape k ++ String dquote (": " ++ dumps x ++ "}" ++ rest))%string.
    split.
    + unfold quoted. rewrite !append_assoc. simpl. rewrite !append_assoc.
      reflexivity.
    + rewrite (scan_members_step f _ k (dumps x ++ "}" ++ rest));
        [ | apply scanstring_escape ].
      rewrite skip_ws_dumps.
      rewrite (Hx f); [ | reflexivity | lia ].
      reflexivity.
  - rewrite dumps_members_more in *.
    pose proof (quoted_length k) as Hq.
    rewrite !append_length in Hlen.
    change (String.length ": ") with 2 in Hlen.
    change (String.length ", ") with 2 in Hlen.
    destruct f as [ | f ]; [ lia | ].
    destruct (IH ltac:(discriminate) f rest ltac:(lia)) as (t' & Et & Hscan).
    exists (escape k ++ String dquote
              (": " ++ dumps x ++ ", " ++ dumps_members (kv :: l) ++ rest))%string.
    split.
    + unfold quoted. rewrite !append_assoc. simpl. rewrite !append_assoc.
      reflexivity.
    + rewrite (scan_members_step f _ k
                 (dumps x ++ ", " ++ dumps_members (kv :: l) ++ rest));
        [ | apply scanstring_escape ].
      rewrite skip_ws_dumps.
      rewrite (Hx f); [ | reflexivity | lia ].
      rewrite Et. simpl. rewrite Hscan. reflexivity.
Qed.

Lemma dict_set_fresh (k : string) (v : json) (d : list (string * json)) :
  ~ In k (map fst d) -> dict_set k v d = (d ++ [(k, v)])%list.
Proof.
  induction d as [ | [k' w] d IH ]; simpl; intros H; [ reflexivity | ].
  destruct (String.eqb_spec k' k) as [ -> | _ ].
  - exfalso. apply H. now left.
  - rewrite IH; [ reflexivity | ]. intros Hin. apply H. now right.
Qed.

Lemma fold_dict_set (l acc : list (string * json)) :
  NoDup (map fst (acc ++ l)%list) ->
  fold_left (fun d kv => dict_set (fst kv) (snd kv) d) l acc = (acc ++ l)%list.
Proof.
  revert acc. induction l as [ | [k v] l IH ]; intros acc H; simpl.
  - now rewrite List.app_nil_r.
  - rewrite dict_set_fresh.
    + rewrite IH; rewrite <- List.app_assoc; [ reflexivity | exact H ].
    + rewrite List.map_app in H. simpl in H.
      apply NoDup_remove_2 in H. intros Hin. apply H.
      apply in_or_app. now left.
Qed.

(** Building a dict from members with distinct keys keeps them as they are. *)
Lemma py_dict_nodup (l : list (string * json)) :
  NoDup (map fst l) -> py_dict l = l.
Proof. intros H. unfold py_dict. now rewrite fold_dict_set. Qed.

Lemma wf_json_arr (l : list json) : wf_json (JArr l) <-> Forall wf_json l.
Proof.
  simpl. induction l as [ | x l IH ]; split; intros H.
  - constructor.
  - exact I.
  - destruct H as [H1 H2]. constructor; [ exact H1 | now apply IH ].
  - inversion H; subst. split; [ assumption | now apply IH ].
Qed.

Lemma wf_json_obj (kvs : list (string * json)) :
  wf_json (JObj kvs) <->
  NoDup (map fst kvs) /\ Forall (fun kv => wf_json (snd kv)) kvs.
Proof.
  simpl. apply and_iff_compat_l.
  induction kvs as [ | [k x] l IH ]; split; intros H.
  - constructor.
  - exact I.
  - destruct H as [H1 H2]. constructor; [ exact H1 | now apply IH ].
  - inversion H; subst. split; [ assumption | now apply IH ].
Qed.

Lemma scan_once_array (f : nat) (t : string) (c : ascii) (s : string) :
  t = String c s -> is_ws c = false -> (N_of_ascii c =? 93)%N = false ->
  scan_once (S f) (String "[" t) =
  match scan_items f t with
  | Some (l, rest) => Some (JArr l, rest)
  | None => None
  end.
Proof. intros -> Hw Hb. simpl. rewrite Hw, Hb. reflexivity. Qed.

Lemma scan_once_object (f : nat) (t : string) :
  scan_once (S f) (String "{" (String dquote t)) =
  match scan_members f t with
  | Some (kvs, rest) => Some (JObj (py_dict kvs), rest)
  | None => None
  end.
Proof. reflexivity. Qed.

(** Every well-formed value is decoded from its own text, with fuel for
    the length of the text. *)
Lemma scan_once_dumps (v : json) : wf_json v -> reads_back v.
Proof.
  induction v as [ | b | z | s | l IH | kvs IH ] using json_nested_ind;
    intros Hwf f rest Hd Hlen.
  - destruct f as [ | f ]; [ simpl in Hlen; lia | reflexivity ].
  - destruct f as [ | f ]; [ destruct b; simpl in Hlen; lia | ].
    destruct b; reflexivity.
  - destruct (dumps_int_head z) as (c & s & E & Hc).
    destruct f as [ | f ];
      [ simpl in Hlen; rewrite E in Hlen; simpl in Hlen; lia | ].
    simpl dumps. pose proof (scan_int_dumps z rest Hd) as Hs.
    rewrite E in *. simpl append in *.
    rewrite (scan_once_int_start f c _ Hc), Hs. reflexivity.
  - destruct f as [ | f ]; [ simpl in Hlen; lia | ].
    simpl. rewrite append_assoc. simpl.
    now rewrite scanstring_escape.
  - apply wf_json_arr in Hwf.
    destruct f as [ | f ]; [ simpl in Hlen; lia | ].
    destruct l as [ | x l ]; [ reflexivity | ].
    change (dumps (JArr (x :: l))) with ("[" ++ dumps_items (x :: l))%string in *.
    change (String.length ("[" ++ dumps_items (x :: l)))
      with (S (String.length (dumps_items (x :: l)))) in Hlen.
    assert (Hall : Forall reads_back (x :: l)).
    { clear Hlen. induction IH as [ | y l' Hy _ IHl ]; constructor.
      - apply Hy. now inversion Hwf.
      - apply IHl. now inversion Hwf. }
    pose proof (scan_items_dumps (x :: l) ltac:(discriminate) Hall f rest
                  ltac:(lia)) as Hs.
    assert (Hh : exists c s, (dumps_items (x :: l) ++ rest)%string = String c s /\
                             is_ws c = false /\ (N_of_ascii c =? 93)%N = false).
    { destruct (dumps_head x) as (c & s & E & Hw & Hb).
      destruct l as [ | y l ].
      - rewrite dumps_items_one, E. simpl. eauto.
      - rewrite dumps_items_more, E. simpl. eauto. }
    destruct Hh as (c & s & E & Hw & Hb).
    change (("[" ++ dumps_items (x :: l)) ++ rest)%string
      with (String "[" (dumps_items (x :: l) ++ rest)).
    rewrite (scan_once_array f _ c s E Hw Hb), Hs. reflexivity.
  - apply wf_json_obj in Hwf. destruct Hwf as [Hnd Hwf].
    destruct f as [ | f ]; [ simpl in Hlen; lia | ].
    destruct kvs as [ | kv l ]; [ reflexivity | ].
    change (dumps (JObj (kv :: l))) with ("{" ++ dumps_members (kv :: l))%string in *.
    change (String.length ("{" ++ dumps_members (kv :: l)))
      with (S (String.length (dumps_members (kv :: l)))) in Hlen.
    assert (Hall : Forall (fun kv => reads_back (snd kv)) (kv :: l)).
    { clear Hlen Hnd. induction IH as [ | y l' Hy _ IHl ]; constructor.
      - apply Hy. now inversion Hwf.
      - apply IHl. now inversion Hwf. }
    destruct (scan_members_dumps (kv :: l) ltac:(discriminate) Hall f rest
                ltac:(lia)) as (t & Et & Hs).
    change (("{" ++ dumps_members (kv :: l)) ++ rest)%string
      with (String "{" (dumps_members (kv :: l) ++ rest)).
    rewrite Et, scan_once_object, Hs, (py_dict_nodup _ Hnd). reflexivity.
Qed.

(** Round trip: [json.loads(json.dumps(v)) == v]. *)
Lemma loads_dumps (v : json) : wf_json v -> loads (dumps v) = Some v.
Proof.
  intros Hwf. unfold loads.
  rewrite <- (append_nil_r (dumps v)) at 2.
  rewrite skip_ws_dumps, (scan_once_dumps v Hwf); [ reflexivity | reflexivity | lia ].
Qed.

(** The text of a value is never empty. *)
Lemma dumps_nonempty (v : json) : String.eqb (dumps v) EmptyString = false.
Proof.
  destruct (dumps_head v) as (c & s & E & _). rewrite E. reflexivity.
Qed.

(* ================================================================== *)
(** ** Facts about the store *)

Lemma eq_str_empty (v : json) :
  eq_str v EmptyString = true <-> v = JStr EmptyString.
Proof.
  destruct v as [ | b | z | s | l | kvs ]; simpl; split; try discriminate.
  - intros H. apply String.eqb_eq in H. now subst.
  - intros H. injection H as ->. reflexivity.
Qed.

Lemma eq_str_nonempty (v : json) :
  v <> JStr EmptyString -> eq_str v EmptyString = false.
Proof.
  intros H. destruct (eq_str v EmptyString) eqn:E; [ | reflexivity ].
  apply eq_str_empty in E. contradiction.
Qed.

Lemma first_by_title_found (t : json) (st : store) (d : Drink) :
  In d (rows st) -> title d = t -> truthy (first_by_title t st) = true.
Proof.
  intros Hin Ht. unfold first_by_title.
  destruct (find _ (rows st)) eqn:E; [ reflexivity | ].
  apply (find_none _ _ E) in Hin. rewrite Ht, json_eqb_refl in Hin.
  discriminate.
Qed.

Lemma first_by_title_absent (t : json) (st : store) :
  (forall d, In d (rows st) -> title d <> t) -> first_by_title t st = None.
Proof.
  intros H. unfold first_by_title.
  destruct (find _ (rows st)) eqn:E; [ | reflexivity ].
  apply find_some in E. destruct E as [Hin Heq].
  apply json_eqb_true in Heq. now apply H in Hin.
Qed.

Lemma by_id_absent (i : Z) (st : store) :
  (forall d, In d (rows st) -> drink_id d <> i) ->
  one_or_none_by_id i st = None.
Proof.
  intros H. unfold one_or_none_by_id.
  destruct (find _ (rows st)) eqn:E; [ | reflexivity ].
  apply find_some in E. destruct E as [Hin Heq].
  apply Z.eqb_eq in Heq. now apply H in Hin.
Qed.

Lemma by_id_some (i : Z) (st : store) (d : Drink) :
  one_or_none_by_id i st = Some d -> In d (rows st) /\ drink_id d = i.
Proof.
  unfold one_or_none_by_id. intros E. apply find_some in E.
  destruct E as [Hin Heq]. apply Z.eqb_eq in Heq. now split.
Qed.

Lemma find_by_id_unique (i : Z) (l : list Drink) (d : Drink) :
  NoDup (map drink_id l) -> In d l -> drink_id d = i ->
  find (fun x => Z.eqb (drink_id x) i) l = Some d.
Proof.
  induction l as [ | x l IH ]; simpl; intros Hnd Hin Hid; [ contradiction | ].
  inversion Hnd as [ | ? ? Hx Hl ]; subst.
  destruct Hin as [ -> | Hin ].
  - now rewrite Z.eqb_refl.
  - destruct (Z.eqb_spec (drink_id x) (drink_id d)) as [ E | _ ].
    + exfalso. apply Hx. rewrite E. now apply in_map.
    + now apply IH.
Qed.

(** With distinct identifiers the row a handler fetches is the row of that
    identifier. *)
Lemma by_id_found (st : store) (d : Drink) :
  wf_store st -> In d (rows st) ->
  one_or_none_by_id (drink_id d) st = Some d.
Proof.
  intros (Hnd & _ & _) Hin. unfold one_or_none_by_id.
  now apply find_by_id_unique.
Qed.

(** *** The handlers, case by case *)

Lemma create_drinks_eq (payload : Auth.payload) (kvs : list (string * json))
  (st : store) :
  create_drinks payload (JObj kvs) st =
  if eq_str (dict_get kvs "title") EmptyString then (Abort 422, st)
  else if truthy (first_by_title (dict_get kvs "title") st) then (Abort 400, st)
  else
    let d := created st (dict_get kvs "title") (dumps (dict_get kvs "recipe")) in
    let st' := {| rows := rows st ++ [d]; next_id := (next_id st + 1)%Z |} in
    match long d with
    | Some v =>
        (Ok (jsonify [("success", JBool true); ("drinks", JArr [v])]), st')
    | None => (Fault, st')
    end.
Proof.
  unfold create_drinks, bind, or_fault, attr_get, query, abort, ret.
  rewrite dumps_nonempty, orb_false_r.
  destruct (eq_str _ _); [ reflexivity | ].
  destruct (truthy _); [ reflexivity | ].
  unfold insert, created. simpl. destruct (long _); reflexivity.
Qed.

Lemma create_drinks_no_dict (payload : Auth.payload) (b : json) (st : store) :
  attr_get b = None -> create_drinks payload b st = (Fault, st).
Proof.
  intros H. unfold create_drinks, bind, or_fault. now rewrite H.
Qed.

Lemma patch_drinks_eq (payload : Auth.payload) (id : Z) (b : json) (st : store) :
  patch_drinks payload id b st =
  match one_or_none_by_id id st with
  | None => (Abort 404, st)
  | Some d =>
      match b with
      | JObj kvs =>
          match long (patched d kvs) with
          | Some v =>
              (Ok (jsonify [("success", JBool true); ("drinks", JArr [v])]),
               update (patched d kvs) st)
          | None => (Fault, update (patched d kvs) st)
          end
      | _ => (Fault, st)
      end
  end.
Proof.
  unfold patch_drinks, bind, query, abort.
  destruct (one_or_none_by_id id st) as [ d | ]; [ | reflexivity ].
  destruct b as [ | x | x | x | l | kvs ]; try reflexivity.
  unfold or_fault, attr_get, commit, ret.
  rewrite dumps_nonempty. unfold patched.
  destruct (eq_str (dict_get kvs "title") EmptyString); simpl;
    match goal with |- context [ long ?d ] => destruct (long d) end;
    reflexivity.
Qed.

Lemma delete_drinks_eq (payload : Auth.payload) (id : Z) (st : store) :
  delete_drinks payload id st =
  match one_or_none_by_id id st with
  | None => (Abort 404, st)
  | Some d =>
      (Ok (jsonify [("success", JBool true); ("deleted", JInt id)]),
       delete d st)
  end.
Proof.
  unfold delete_drinks, bind, query, abort, commit, ret.
  destruct (one_or_none_by_id id st); reflexivity.
Qed.

Lemma serve_authorized (idp : authority) (req : request) (st : store)
  (permission : string) (f : Auth.payload -> M json) (claims : Auth.payload) :
  authorize idp permission (authorization req) = inr claims ->
  run (requires_auth idp permission f req) st = run (f claims) st.
Proof. intros H. unfold requires_auth. now rewrite H. Qed.


(** *** The invariant along the requests *)

Lemma wf_empty : wf_store Store.empty.
Proof. repeat split; simpl; try constructor; contradiction. Qed.

Lemma wf_insert (st : store) (t : json) (r : string) :
  wf_store st -> t <> JStr EmptyString ->
  wf_store {| rows := rows st ++ [created st t r];
              next_id := (next_id st + 1)%Z |}.
Proof.
  intros (Hnd & Hlt & Hti) Ht. repeat split; simpl.
  - rewrite List.map_app. apply NoDup_app; [ exact Hnd | | ].
    + simpl. constructor; [ intros [] | constructor ].
    + intros a Ha [ <- | [] ]. apply in_map_iff in Ha.
      destruct Ha as (d & Hd & Hin). apply Hlt in Hin. simpl in Hd. lia.
  - intros d Hin. apply in_app_or in Hin. destruct Hin as [ Hin | [ <- | [] ] ].
    + apply Hlt in Hin. lia.
    + simpl. lia.
  - intros d Hin. apply in_app_or in Hin. destruct Hin as [ Hin | [ <- | [] ] ].
    + now apply Hti.
    + exact Ht.
Qed.

Lemma update_ids (d : Drink) (l : list Drink) :
  map drink_id
      (map (fun x => if Z.eqb (drink_id x) (drink_id d) then d else x) l)
  = map drink_id l.
Proof.
  induction l as [ | x l IH ]; simpl; [ reflexivity | ].
  rewrite IH. destruct (Z.eqb_spec (drink_id x) (drink_id d)) as [ E | _ ];
    [ now rewrite E | reflexivity ].
Qed.

Lemma wf_update (st : store) (d : Drink) :
  wf_store st -> (drink_id d < next_id st)%Z -> title d <> JStr EmptyString ->
  wf_store (update d st).
Proof.
  intros (Hnd & Hlt & Hti) Hd Ht. unfold update. repeat split; simpl.
  - now rewrite update_ids.
  - intros x Hin. apply in_map_iff in Hin. destruct Hin as (y & Hy & Hin).
    destruct (Z.eqb (drink_id y) (drink_id d)); subst; [ exact Hd | now apply Hlt ].
  - intros x Hin. apply in_map_iff in Hin. destruct Hin as (y & Hy & Hin).
    destruct (Z.eqb (drink_id y) (drink_id d)); subst; [ exact Ht | now apply Hti ].
Qed.

Lemma delete_ids (i : Z) (l : list Drink) :
  map drink_id (filter (fun x => negb (Z.eqb (drink_id x) i)) l)
  = filter (fun z => negb (Z.eqb z i)) (map drink_id l).
Proof. now rewrite filter_map_swap. Qed.

Lemma wf_delete (st : store) (d : Drink) : wf_store st -> wf_store (delete d st).
Proof.
  intros (Hnd & Hlt & Hti). unfold delete. repeat split; simpl.
  - rewrite delete_ids. now apply NoDup_filter.
  - intros x Hin. apply filter_In in Hin. now apply Hlt.
  - intros x Hin. apply filter_In in Hin. now apply Hti.
Qed.

Lemma patched_title (d : Drink) (kvs : list (string * json)) :
  title d <> JStr EmptyString -> title (patched d kvs) <> JStr EmptyString.
Proof.
  intros H. unfold patched. simpl.
  destruct (eq_str (dict_get kvs "title") EmptyString) eqn:E; [ exact H | ].
  intros Heq. apply eq_str_empty in Heq. congruence.
Qed.

Lemma snd_serve (idp : authority) (req : request) (st : store) :
  snd (serve idp req st) = snd (view idp req st).
Proof. unfold serve, run. now destruct (view idp req st). Qed.

Lemma create_drinks_wf (payload : Auth.payload) (b : json) (st : store) :
  wf_store st -> wf_store (snd (create_drinks payload b st)).
Proof.
  intros Hwf. destruct (attr_get b) eqn:Eb.
  - destruct b; try discriminate. rewrite create_drinks_eq.
    destruct (eq_str _ _) eqn:Et; [ exact Hwf | ].
    destruct (truthy _); [ exact Hwf | ].
    assert (Hw : wf_store
                   {| rows := rows st ++
                        [created st (dict_get kvs "title")
                           (dumps (dict_get kvs "recipe"))];
                      next_id := (next_id st + 1)%Z |}).
    { apply wf_insert; [ exact Hwf | ].
      intros H. apply eq_str_empty in H. congruence. }
    cbv zeta. destruct (long _); exact Hw.
  - now rewrite create_drinks_no_dict.
Qed.

Lemma patch_drinks_wf (payload : Auth.payload) (id : Z) (b : json) (st : store) :
  wf_store st -> wf_store (snd (patch_drinks payload id b st)).
Proof.
  intros Hwf. rewrite patch_drinks_eq.
  destruct (one_or_none_by_id id st) as [ d | ] eqn:E; [ | exact Hwf ].
  apply by_id_some in E. destruct E as [Hin _].
  destruct b; try exact Hwf.
  assert (Hw : wf_store (update (patched d kvs) st)).
  { destruct Hwf as (Hnd & Hlt & Hti).
    apply wf_update; [ now repeat split | simpl; now apply Hlt | ].
    apply patched_title. now apply Hti. }
  destruct (long _); exact Hw.
Qed.

Lemma delete_drinks_wf (payload : Auth.payload) (id : Z) (st : store) :
  wf_store st -> wf_store (snd (delete_drinks payload id st)).
Proof.
  intros Hwf. rewrite delete_drinks_eq.
  destruct (one_or_none_by_id id st); [ now apply wf_delete | exact Hwf ].
Qed.

Lemma read_only (l : list Drink) (f : Drink -> option json) (st : store) :
  snd ((drinks <- query query_all ;;
        drink_list <- or_fault (traverse f drinks) ;;
        ret (jsonify [("success", JBool true); ("drinks", JArr drink_list)])) st)
  = st.
Proof.
  unfold bind, query, or_fault, ret. now destruct (traverse f (query_all st)).
Qed.

(** Every request keeps the invariant of the table. *)
Lemma view_wf (idp : authority) (req : request) (st : store) :
  wf_store st -> wf_store (snd (view idp req st)).
Proof.
  intros Hwf. unfold view, requires_auth.
  destruct (target req) as [ | | | id | id ].
  - unfold get_drinks. now rewrite (read_only []).
  - destruct (authorize _ _ _); [ exact Hwf | ].
    unfold get_drinks_detail. now rewrite (read_only []).
  - destruct (authorize _ _ _); [ exact Hwf | now apply create_drinks_wf ].
  - destruct (authorize _ _ _); [ exact Hwf | now apply patch_drinks_wf ].
  - destruct (authorize _ _ _); [ exact Hwf | now apply delete_drinks_wf ].
Qed.

Lemma reachable_wf (idp : authority) (st0 st : store) :
  wf_store st0 -> reachable idp st0 st -> wf_store st.
Proof.
  intros H0 Hr. induction Hr as [ | st req _ IH ]; [ exact H0 | ].
  rewrite snd_serve. now apply view_wf.
Qed.

(** The identifier counter never goes back. *)
Lemma view_next_id (idp : authority) (req : request) (st : store) :
  (next_id st <= next_id (snd (view idp req st)))%Z.
Proof.
  unfold view, requires_auth.
  destruct (target req) as [ | | | id | id ].
  - unfold get_drinks. rewrite (read_only []). lia.
  - destruct (authorize _ _ _); [ simpl; lia | ].
    unfold get_drinks_detail. rewrite (read_only []). lia.
  - destruct (authorize _ _ _) as [ e | p ]; [ simpl; lia | ].
    destruct (attr_get (get_json req)) eqn:Eb.
    + destruct (get_json req); try discriminate. rewrite create_drinks_eq.
      destruct (eq_str _ _); [ simpl; lia | ].
      destruct (truthy _); [ simpl; lia | ].
      cbv zeta. destruct (long _); simpl; lia.
    + rewrite create_drinks_no_dict by exact Eb. simpl. lia.
  - destruct (authorize _ _ _) as [ e | p ]; [ simpl; lia | ].
    rewrite patch_drinks_eq.
    destruct (one_or_none_by_id id st); [ | simpl; lia ].
    destruct (get_json req); try (simpl; lia).
    destruct (long _); simpl; lia.
  - destruct (authorize _ _ _) as [ e | p ]; [ simpl; lia | ].
    rewrite delete_drinks_eq.
    destruct (one_or_none_by_id id st); simpl; lia.
Qed.

Lemma reachable_next_id (idp : authority) (st0 st : store) :
  reachable idp st0 st -> (next_id st0 <= next_id st)%Z.
Proof.
  intros Hr. induction Hr as [ | st req _ IH ]; [ lia | ].
  rewrite snd_serve. pose proof (view_next_id idp req st). lia.
Qed.

(* ================================================================== *)
(** ** Creating a drink *)

Lemma dict_get_some (kvs : list (string * json)) (key : string) (v : json) :
  assoc key kvs = Some v -> dict_get kvs key = v.
Proof. intros H. unfold dict_get. now rewrite H. Qed.

Lemma dict_get_none (kvs : list (string * json)) (key : string) :
  assoc key kvs = None -> dict_get kvs key = JNull.
Proof. intros H. unfold dict_get. now rewrite H. Qed.

Lemma serve_post (idp : authority) (req : request) (st : store)
  (claims : Auth.payload) :
  target req = POST_drinks ->
  authorize idp "post:drinks" (authorization req) = inr claims ->
  serve idp req st = run (create_drinks claims (get_json req)) st.
Proof.
  intros Ht Ha. unfold serve, view. rewrite Ht.
  exact (serve_authorized idp req st _
           (fun payload => create_drinks payload (get_json req)) claims Ha).
Qed.

(** C1: a [POST /drinks] with the [post:drinks] permission granted whose
    title equals the title of a drink of the table is answered with status
    400 and the body [{success: false, error: 400, message: "bad request"}];
    no row is inserted or overwritten, the table is left as it was. *)
Theorem post_duplicate_title_is_400 (idp : authority) (req : request)
  (st : store) (claims : Auth.payload) (kvs : list (string * json))
  (d : Drink) :
  wf_store st ->
  target req = POST_drinks ->
  authorize idp "post:drinks" (authorization req) = inr claims ->
  get_json req = JObj kvs ->
  In d (rows st) ->
  assoc "title" kvs = Some (title d) ->
  serve idp req st =
  (Some {| status := 400;
           body := JObj [("success", JBool false); ("error", JInt 400);
                         ("message", JStr "bad request")] |},
   st).
Proof.
  intros (_ & _ & Hti) Ht Ha Hb Hin Hk.
  rewrite (serve_post idp req st claims Ht Ha), Hb.
  unfold run. rewrite create_drinks_eq, (dict_get_some _ _ _ Hk).
  rewrite (eq_str_nonempty _ (Hti d Hin)).
  now rewrite (first_by_title_found _ st d Hin eq_refl).
Qed.

Lemma post_duplicate_title_is_400_witness :
  serve idp0 (as_manager POST_drinks water) st_water
  = (Some resource_not_found_400, st_water).
Proof.
  apply (post_duplicate_title_is_400 idp0 (as_manager POST_drinks water)
           st_water manager
           [("title", JStr "Water"); ("recipe", water_recipe)] water_row).
  - repeat split.
    + simpl. constructor; [ intros [] | constructor ].
    + intros d [ <- | [] ]. reflexivity.
    + intros d [ <- | [] ]. discriminate.
  - reflexivity.
  - reflexivity.
  - reflexivity.
  - simpl. now left.
  - reflexivity.
Defined.

Lemma assoc_in (key : string) (kvs : list (string * json)) (v : json) :
  assoc key kvs = Some v -> exists k, In (k, v) kvs.
Proof.
  induction kvs as [ | [k w] kvs IH ]; simpl; [ discriminate | ].
  destruct (String.eqb k key).
  - intros H. injection H as ->. exists k. now left.
  - intros H. destruct (IH H) as (k' & Hin). exists k'. now right.
Qed.

Lemma wf_json_assoc (kvs : list (string * json)) (key : string) (v : json) :
  wf_json (JObj kvs) -> assoc key kvs = Some v -> wf_json v.
Proof.
  intros Hwf H. apply wf_json_obj in Hwf. destruct Hwf as [_ Hall].
  destruct (assoc_in _ _ _ H) as (k & Hin).
  rewrite Forall_forall in Hall. exact (Hall _ Hin).
Qed.

Lemma long_created (st : store) (t r : json) :
  wf_json r ->
  long (created st t (dumps r))
  = Some (JObj [("id", JInt (next_id st)); ("title", t); ("recipe", r)]).
Proof. intros H. unfold long, created. simpl. now rewrite loads_dumps. Qed.

(** C4: a [POST /drinks] with the [post:drinks] permission granted, a
    non-empty title that no drink of the table has and a recipe is answered
    with status 200 and the body [{success: true, drinks: [d]}], where [d]
    is the detailed view of the one new drink; the new drink goes last in
    the table and its identifier is the store's next one, which no drink of
    any earlier table [st0] of the application ever had. *)
Theorem post_valid_creates_fresh_drink (idp : authority) (req : request)
  (st0 st : store) (claims : Auth.payload) (kvs : list (string * json))
  (t r : json) :
  wf_store st0 ->
  reachable idp st0 st ->
  target req = POST_drinks ->
  authorize idp "post:drinks" (authorization req) = inr claims ->
  get_json req = JObj kvs ->
  wf_json (JObj kvs) ->
  assoc "title" kvs = Some t ->
  t <> JStr EmptyString ->
  (forall d, In d (rows st) -> title d <> t) ->
  assoc "recipe" kvs = Some r ->
  serve idp req st =
  (Some {| status := 200;
           body := JObj [("success", JBool true);
                         ("drinks",
                          JArr [JObj [("id", JInt (next_id st));
                                      ("title", t); ("recipe", r)]])] |},
   {| rows := rows st ++
              [{| drink_id := next_id st; title := t; recipe := dumps r |}];
      next_id := (next_id st + 1)%Z |})
  /\ (forall d, In d (rows st0) -> drink_id d <> next_id st)
  /\ (forall d, In d (rows st) -> drink_id d <> next_id st).
Proof.
  intros Hwf0 Hr Ht Ha Hb Hwb Hk Hne Hnew Hrec.
  split; [ | split ].
  - rewrite (serve_post idp req st claims Ht Ha), Hb.
    unfold run. rewrite create_drinks_eq.
    rewrite (dict_get_some _ _ _ Hk), (dict_get_some _ _ _ Hrec).
    rewrite (eq_str_nonempty _ Hne), (first_by_title_absent _ _ Hnew).
    simpl truthy. cbv iota zeta.
    rewrite (long_created st t r (wf_json_assoc _ _ _ Hwb Hrec)).
    reflexivity.
  - intros d Hin. destruct Hwf0 as (_ & Hlt & _). apply Hlt in Hin.
    pose proof (reachable_next_id idp st0 st Hr). lia.
  - intros d Hin. destruct (reachable_wf idp st0 st Hwf0 Hr) as (_ & Hlt & _).
    apply Hlt in Hin. lia.
Qed.

Lemma post_valid_creates_fresh_drink_witness :
  serve idp0 (as_manager POST_drinks water) Store.empty =
  (Some {| status := 200;
           body := JObj [("success", JBool true);
                         ("drinks",
                          JArr [JObj [("id", JInt 1); ("title", JStr "Water");
                                      ("recipe", water_recipe)]])] |},
   st_water).
Proof.
  apply (post_valid_creates_fresh_drink idp0 (as_manager POST_drinks water)
           Store.empty Store.empty manager
           [("title", JStr "Water"); ("recipe", water_recipe)]
           (JStr "Water") water_recipe).
  - repeat split; simpl; try constructor; contradiction.
  - constructor.
  - reflexivity.
  - reflexivity.
  - reflexivity.
  - simpl. repeat split; repeat constructor; simpl; intuition discriminate.
  - reflexivity.
  - discriminate.
  - intros d [].
  - reflexivity.
Defined.

(** C9: a [POST /drinks] with the [post:drinks] permission granted whose
    body has no ['recipe'] key, and a non-empty title that no drink of the
    table has, is not rejected: the absent recipe is serialised to the text
    [null], which is not empty, and a drink with that text as its recipe is
    inserted and returned with status 200. *)
Theorem post_without_recipe_stores_null (idp : authority) (req : request)
  (st : store) (claims : Auth.payload) (kvs : list (string * json))
  (t : json) :
  target req = POST_drinks ->
  authorize idp "post:drinks" (authorization req) = inr claims ->
  get_json req = JObj kvs ->
  assoc "recipe" kvs = None ->
  assoc "title" kvs = Some t ->
  t <> JStr EmptyString ->
  (forall d, In d (rows st) -> title d <> t) ->
  dumps (dict_get kvs "recipe") = "null" /\
  String.eqb (dumps (dict_get kvs "recipe")) EmptyString = false /\
  serve idp req st =
  (Some {| status := 200;
           body := JObj [("success", JBool true);
                         ("drinks",
                          JArr [JObj [("id", JInt (next_id st));
                                      ("title", t); ("recipe", JNull)]])] |},
   {| rows := rows st ++
              [{| drink_id := next_id st; title := t; recipe := "null" |}];
      next_id := (next_id st + 1)%Z |}).
Proof.
  intros Ht Ha Hb Hrec Hk Hne Hnew.
  rewrite (dict_get_none _ _ Hrec). repeat split.
  rewrite (serve_post idp req st claims Ht Ha), Hb.
  unfold run. rewrite create_drinks_eq.
  rewrite (dict_get_some _ _ _ Hk), (dict_get_none _ _ Hrec).
  rewrite (eq_str_nonempty _ Hne), (first_by_title_absent _ _ Hnew).
  reflexivity.
Qed.

Lemma post_without_recipe_stores_null_witness :
  dumps (dict_get [("title", JStr "Tea")] "recipe") = "null" /\
  String.eqb (dumps (dict_get [("title", JStr "Tea")] "recipe")) EmptyString
  = false /\
  serve idp0 (as_manager POST_drinks tea) Store.empty =
  (Some {| status := 200;
           body := JObj [("success", JBool true);
                         ("drinks",
                          JArr [JObj [("id", JInt 1); ("title", JStr "Tea");
                                      ("recipe", JNull)]])] |},
   st_tea).
Proof.
  apply (post_without_recipe_stores_null idp0 (as_manager POST_drinks tea)
           Store.empty manager [("title", JStr "Tea")] (JStr "Tea")).
  - reflexivity.
  - reflexivity.
  - reflexivity.
  - reflexivity.
  - reflexivity.
  - discriminate.
  - intros d [].
Defined.

(** An empty-string title is the one input the validation of
    [create_drinks] rejects. *)
Lemma post_empty_title_is_422 (idp : authority) (req : request) (st : store)
  (claims : Auth.payload) (kvs : list (string * json)) :
  target req = POST_drinks ->
  authorize idp "post:drinks" (authorization req) = inr claims ->
  get_json req = JObj kvs ->
  assoc "title" kvs = Some (JStr EmptyString) ->
  serve idp req st = (Some unprocessable, st).
Proof.
  intros Ht Ha Hb Hk.
  rewrite (serve_post idp req st claims Ht Ha), Hb.
  unfold run. rewrite create_drinks_eq, (dict_get_some _ _ _ Hk).
  reflexivity.
Qed.

(** C3: the claim asks for status 422 whenever the title or the recipe of a
    [POST /drinks] is empty or missing.  The code compares the serialised
    recipe with the empty string, which [json.dumps] never returns, and a
    missing title is [None], not the empty string: a request with an empty
    recipe and a request with no title are both answered 200 and insert a
    row. *)
Theorem post_empty_recipe_or_missing_title_is_accepted :
  serve idp0
        (as_manager POST_drinks
           (JObj [("title", JStr "Water"); ("recipe", JStr EmptyString)]))
        Store.empty
  = (Some {| status := 200;
             body := JObj [("success", JBool true);
                           ("drinks",
                            JArr [JObj [("id", JInt 1);
                                        ("title", JStr "Water");
                                        ("recipe", JStr EmptyString)]])] |},
     {| rows := [{| drink_id := 1; title := JStr "Water";
                    recipe := two_quotes |}];
        next_id := 2 |})
  /\
  serve idp0
        (as_manager POST_drinks (JObj [("recipe", water_recipe)]))
        Store.empty
  = (Some {| status := 200;
             body := JObj [("success", JBool true);
                           ("drinks",
                            JArr [JObj [("id", JInt 1); ("title", JNull);
                                        ("recipe", water_recipe)]])] |},
     {| rows := [{| drink_id := 1; title := JNull;
                    recipe := dumps water_recipe |}];
        next_id := 2 |}).
Proof. split; reflexivity. Qed.

(* ================================================================== *)
(** ** Updating a drink *)

Lemma serve_patch (idp : authority) (req : request) (st : store)
  (claims : Auth.payload) (id : Z) :
  target req = PATCH_drinks id ->
  authorize idp "patch:drinks" (authorization req) = inr claims ->
  serve idp req st = run (patch_drinks claims id (get_json req)) st.
Proof.
  intros Ht Ha. unfold serve, view. rewrite Ht.
  exact (serve_authorized idp req st _
           (fun payload => patch_drinks payload id (get_json req)) claims Ha).
Qed.

(** What [patch_drinks] writes for a row it found: the title is replaced
    unless the supplied value is the empty string, and the recipe is
    replaced by the serialised value in every case. *)
Lemma patch_writes (payload : Auth.payload) (st : store) (d : Drink)
  (kvs : list (string * json)) :
  one_or_none_by_id (drink_id d) st = Some d ->
  snd (patch_drinks payload (drink_id d) (JObj kvs) st)
  = update (patched d kvs) st.
Proof.
  intros H. rewrite patch_drinks_eq, H. now destruct (long _).
Qed.

Lemma patched_title_rule (d : Drink) (kvs : list (string * json)) :
  (dict_get kvs "title" = JStr EmptyString -> title (patched d kvs) = title d)
  /\ (dict_get kvs "title" <> JStr EmptyString ->
      title (patched d kvs) = dict_get kvs "title").
Proof.
  unfold patched. simpl. split; intros H.
  - now rewrite H.
  - now rewrite (eq_str_nonempty _ H).
Qed.

(** C2: the claim has an empty recipe leave the stored recipe unchanged and
    the title replaced only by a non-empty string.  The guard of the code
    compares the serialised recipe with the empty string, which
    [json.dumps] never returns: a [PATCH] with empty title and empty recipe
    keeps the title but overwrites the stored recipe with the text of the
    empty string, and a [PATCH] without a title overwrites the title with
    [None]. *)
Theorem patch_empty_recipe_overwrites :
  serve idp0
        (as_manager (PATCH_drinks 1)
           (JObj [("title", JStr EmptyString); ("recipe", JStr EmptyString)]))
        st_water
  = (Some {| status := 200;
             body := JObj [("success", JBool true);
                           ("drinks",
                            JArr [JObj [("id", JInt 1);
                                        ("title", JStr "Water");
                                        ("recipe", JStr EmptyString)]])] |},
     {| rows := [{| drink_id := 1; title := JStr "Water";
                    recipe := two_quotes |}];
        next_id := 2 |})
  /\
  serve idp0 (as_manager (PATCH_drinks 1) (JObj [("recipe", JArr [])])) st_water
  = (Some {| status := 200;
             body := JObj [("success", JBool true);
                           ("drinks",
                            JArr [JObj [("id", JInt 1); ("title", JNull);
                                        ("recipe", JArr [])]])] |},
     {| rows := [{| drink_id := 1; title := JNull; recipe := "[]" |}];
        next_id := 2 |}).
Proof. split; reflexivity. Qed.

(** C5: when no drink of the table has the identifier, the operation of
    [PATCH /drinks/{id}] and the operation of [DELETE /drinks/{id}] (the view
    functions, which run once the request has passed [requires_auth]) both
    fail with status 404 and the body
    [{success: false, error: 404, message: "resource not found"}], whatever
    the request body is, and leave the table as it was. *)
Theorem unknown_id_is_404 (claims : Auth.payload) (id : Z) (b : json)
  (st : store) :
  (forall d, In d (rows st) -> drink_id d <> id) ->
  run (patch_drinks claims id b) st =
  (Some {| status := 404;
           body := JObj [("success", JBool false); ("error", JInt 404);
                         ("message", JStr "resource not found")] |},
   st)
  /\
  run (delete_drinks claims id) st =
  (Some {| status := 404;
           body := JObj [("success", JBool false); ("error", JInt 404);
                         ("message", JStr "resource not found")] |},
   st).
Proof.
  intros H. apply by_id_absent in H. unfold run.
  rewrite patch_drinks_eq, delete_drinks_eq, H. split; reflexivity.
Qed.

Lemma unknown_id_is_404_witness :
  run (patch_drinks manager 7 water) st_water = (Some resource_not_found, st_water)
  /\ run (delete_drinks manager 7) st_water = (Some resource_not_found, st_water).
Proof.
  apply (unknown_id_is_404 manager 7 water st_water).
  intros d [ <- | [] ]. simpl. lia.
Defined.

(** The same through the routes, for a request that holds the permission. *)
Lemma unknown_id_is_404_served (idp : authority) (req : request) (st : store)
  (claims : Auth.payload) (id : Z) :
  (forall d, In d (rows st) -> drink_id d <> id) ->
  (target req = PATCH_drinks id ->
   authorize idp "patch:drinks" (authorization req) = inr claims ->
   serve idp req st = (Some resource_not_found, st))
  /\
  (target req = DELETE_drinks id ->
   authorize idp "delete:drinks" (authorization req) = inr claims ->
   serve idp req st = (Some resource_not_found, st)).
Proof.
  intros H. apply by_id_absent in H. split; intros Ht Ha.
  - rewrite (serve_patch idp req st claims id Ht Ha). unfold run.
    now rewrite patch_drinks_eq, H.
  - unfold serve, view. rewrite Ht.
    rewrite (serve_authorized idp req st _
               (fun payload => delete_drinks payload id) claims Ha).
    unfold run. now rewrite delete_drinks_eq, H.
Qed.

(* ================================================================== *)
(** ** Deleting a drink *)

Lemma traverse_in {A B : Type} (f : A -> option B) (l : list A) (ys : list B)
  (y : B) :
  traverse f l = Some ys -> In y ys -> exists x, In x l /\ f x = Some y.
Proof.
  revert ys. induction l as [ | x l IH ]; simpl; intros ys H Hin.
  - injection H as <-. contradiction.
  - destruct (f x) as [ y0 | ] eqn:Ex; [ | discriminate ].
    destruct (traverse f l) as [ ys0 | ]; [ | discriminate ].
    injection H as <-. destruct Hin as [ <- | Hin ].
    + exists x. split; [ now left | exact Ex ].
    + destruct (IH ys0 eq_refl Hin) as (x' & Hx' & Hf).
      exists x'. split; [ now right | exact Hf ].
Qed.

Lemma short_id (d : Drink) (e : json) :
  short d = Some e -> field "id" e = Some (JInt (drink_id d)).
Proof.
  unfold short. destruct (loads (recipe d)) as [ [ | | | | l | ] | ];
    try discriminate.
  destruct (traverse short_entry l); [ | discriminate ].
  intros H. injection H as <-. reflexivity.
Qed.

Lemma run_get_drinks (st : store) :
  run get_drinks st =
  match traverse short (rows st) with
  | Some l =>
      (Some {| status := 200;
               body := JObj [("success", JBool true); ("drinks", JArr l)] |},
       st)
  | None => (None, st)
  end.
Proof.
  unfold run, get_drinks, bind, query, or_fault, ret, query_all.
  now destruct (traverse short (rows st)).
Qed.

Lemma same_id_same_row (l : list Drink) (x y : Drink) :
  NoDup (map drink_id l) -> In x l -> In y l -> drink_id x = drink_id y ->
  x = y.
Proof.
  induction l as [ | z l IH ]; simpl; intros Hnd Hx Hy E; [ contradiction | ].
  inversion Hnd as [ | ? ? Hz Hl ]; subst.
  destruct Hx as [ -> | Hx ], Hy as [ -> | Hy ].
  - reflexivity.
  - exfalso. apply Hz. rewrite E. now apply in_map.
  - exfalso. apply Hz. rewrite <- E. now apply in_map.
  - now apply IH.
Qed.

(** C6: a [DELETE /drinks/{id}] with the [delete:drinks] permission granted,
    on the identifier of a drink of the table, removes that row and no
    other, is answered with status 200 and the body
    [{success: true, deleted: id}] that carries the identifier, and a
    [GET /drinks] on the table it leaves lists no drink with that
    identifier. *)
Theorem delete_existing_removes_row (idp : authority) (req : request)
  (st : store) (claims : Auth.payload) (d : Drink) :
  wf_store st ->
  target req = DELETE_drinks (drink_id d) ->
  authorize idp "delete:drinks" (authorization req) = inr claims ->
  In d (rows st) ->
  serve idp req st =
  (Some {| status := 200;
           body := JObj [("success", JBool true);
                         ("deleted", JInt (drink_id d))] |},
   delete d st)
  /\ (forall x, In x (rows (delete d st)) <-> In x (rows st) /\ x <> d)
  /\ ~ In (drink_id d) (map drink_id (rows (delete d st)))
  /\ (forall req' r st'',
        target req' = GET_drinks ->
        serve idp req' (delete d st) = (Some r, st'') ->
        forall e, In e (drinks_of (body r)) ->
                  field "id" e <> Some (JInt (drink_id d))).
Proof.
  intros Hwf Ht Ha Hin.
  assert (Hgone : forall x, In x (rows (delete d st)) ->
                            drink_id x <> drink_id d).
  { intros x Hx. simpl in Hx. apply filter_In in Hx. destruct Hx as [_ Hx].
    apply negb_true_iff, Z.eqb_neq in Hx. exact Hx. }
  repeat split.
  - unfold serve, view. rewrite Ht.
    rewrite (serve_authorized idp req st _
               (fun payload => delete_drinks payload (drink_id d)) claims Ha).
    unfold run. now rewrite delete_drinks_eq, (by_id_found st d Hwf Hin).
  - simpl in H. apply filter_In in H. tauto.
  - intros ->. apply (Hgone d H). reflexivity.
  - intros (Hx & Hne). simpl. apply filter_In. split; [ exact Hx | ].
    apply negb_true_iff, Z.eqb_neq. intros E. apply Hne.
    destruct Hwf as (Hnd & _ & _).
    now apply (same_id_same_row (rows st)).
  - intros H. apply in_map_iff in H. destruct H as (x & E & Hx).
    now apply (Hgone x Hx).
  - intros req' r st'' Ht' Hs e He Hf.
    unfold serve, view in Hs. rewrite Ht', run_get_drinks in Hs.
    destruct (traverse short (rows (delete d st))) as [ l | ] eqn:El;
      [ | discriminate ].
    injection Hs as <- <-. simpl in He.
    destruct (traverse_in _ _ _ _ El He) as (x & Hx & Hsx).
    apply short_id in Hsx. rewrite Hsx in Hf. injection Hf as E.
    now apply (Hgone x Hx).
Qed.

Lemma delete_existing_removes_row_witness :
  serve idp0 (as_manager (DELETE_drinks 1) JNull) st_water =
  (Some {| status := 200;
           body := JObj [("success", JBool true); ("deleted", JInt 1)] |},
   {| rows := []; next_id := 2 |})
  /\ (forall x, In x [] <-> In x [water_row] /\ x <> water_row)
  /\ ~ In 1%Z []
  /\ (forall req' r st'',
        target req' = GET_drinks ->
        serve idp0 req' {| rows := []; next_id := 2 |} = (Some r, st'') ->
        forall e, In e (drinks_of (body r)) -> field "id" e <> Some (JInt 1)).
Proof.
  apply (delete_existing_removes_row idp0 (as_manager (DELETE_drinks 1) JNull)
           st_water manager water_row).
  - repeat split.
    + simpl. constructor; [ intros [] | constructor ].
    + intros d [ <- | [] ]. reflexivity.
    + intros d [ <- | [] ]. discriminate.
  - reflexivity.
  - reflexivity.
  - simpl. now left.
Defined.

(* ================================================================== *)
(** ** Listing the drinks *)







(* ================================================================== *)
(** ** Failures *)


Ltac settle_failure :=
  match goal with
  | H : _ = (Some _, _) |- _ =>
      simpl in H;
      first [ discriminate H
            | injection H as <- <-; simpl in *; try congruence; split; eauto 6 ]
  end.

(** A response other than 200 comes from one of the four error handlers,
    and the table has not moved. *)
Lemma failure_cases (idp : authority) (req : request) (st st' : store)
  (r : response) :
  serve idp req st = (Some r, st') ->
  status r <> 200%Z ->
  st' = st /\
  (r = unprocessable \/ r = resource_not_found \/ r = resource_not_found_400 \/
   exists e, r = authorization_errors e).
Proof.
  unfold serve, view, requires_auth. intros Hs Hne.
  destruct (target req) as [ | | | id | id ].
  - rewrite run_get_drinks in Hs.
    destruct (traverse short (rows st)); settle_failure.
  - destruct (authorize _ _ _) as [ e | claims ].
    + unfold run, raise in Hs. settle_failure.
    + unfold run, get_drinks_detail, bind, query, or_fault, ret in Hs.
      destruct (traverse long (query_all st)); settle_failure.
  - destruct (authorize _ _ _) as [ e | claims ].
    + unfold run, raise in Hs. settle_failure.
    + unfold run in Hs. destruct (attr_get (get_json req)) eqn:Eb.
      * destruct (get_json req); try discriminate.
        rewrite create_drinks_eq in Hs.
        destruct (eq_str _ _); [ settle_failure | ].
        destruct (truthy _); [ settle_failure | ].
        cbv zeta in Hs. destruct (long _); settle_failure.
      * rewrite (create_drinks_no_dict _ _ _ Eb) in Hs. settle_failure.
  - destruct (authorize _ _ _) as [ e | claims ].
    + unfold run, raise in Hs. settle_failure.
    + unfold run in Hs. rewrite patch_drinks_eq in Hs.
      destruct (one_or_none_by_id id st); [ | settle_failure ].
      destruct (get_json req); try settle_failure.
      destruct (long _); settle_failure.
  - destruct (authorize _ _ _) as [ e | claims ].
    + unfold run, raise in Hs. settle_failure.
    + unfold run in Hs. rewrite delete_drinks_eq in Hs.
      destruct (one_or_none_by_id id st); settle_failure.
Qed.

Ltac settle_reply :=
  match goal with
  | H : _ = (_, _) |- _ =>
      simpl in H; injection H as <- <-;
      first [ left; eexists; reflexivity
            | right; left; reflexivity
            | right; right; left; reflexivity
            | right; right; right; left; reflexivity
            | right; right; right; right; left; eexists; reflexivity
            | right; right; right; right; right; reflexivity ]
  end.

(** What a client can receive: a 200 with the success flag, the response of
    one of the four error handlers, or the framework's 500 page. *)
Lemma reply_cases (idp : authority) (req : request) (st st' : store)
  (rep : reply) :
  answer idp req st = (rep, st') ->
  (exists b,
     rep = AppResponse {| status := 200;
                          body := JObj (("success", JBool true) :: b) |})
  \/ rep = AppResponse unprocessable
  \/ rep = AppResponse resource_not_found
  \/ rep = AppResponse resource_not_found_400
  \/ (exists e, rep = AppResponse (authorization_errors e))
  \/ rep = ErrorPage 500.
Proof.
  unfold answer, view, requires_auth. intros Hs.
  destruct (target req) as [ | | | id | id ].
  - unfold get_drinks, bind, query, or_fault, ret in Hs.
    destruct (traverse short (query_all st)); settle_reply.
  - destruct (authorize _ _ _) as [ e | claims ].
    + unfold raise in Hs. settle_reply.
    + unfold get_drinks_detail, bind, query, or_fault, ret in Hs.
      destruct (traverse long (query_all st)); settle_reply.
  - destruct (authorize _ _ _) as [ e | claims ].
    + unfold raise in Hs. settle_reply.
    + destruct (attr_get (get_json req)) eqn:Eb.
      * destruct (get_json req); try discriminate.
        rewrite create_drinks_eq in Hs.
        destruct (eq_str _ _); [ settle_reply | ].
        destruct (truthy _); [ settle_reply | ].
        cbv zeta in Hs. destruct (long _); settle_reply.
      * rewrite (create_drinks_no_dict _ _ _ Eb) in Hs. settle_reply.
  - destruct (authorize _ _ _) as [ e | claims ].
    + unfold raise in Hs. settle_reply.
    + rewrite patch_drinks_eq in Hs.
      destruct (one_or_none_by_id id st); [ | settle_reply ].
      destruct (get_json req); try settle_reply.
      destruct (long _); settle_reply.
  - destruct (authorize _ _ _) as [ e | claims ].
    + unfold raise in Hs. settle_reply.
    + rewrite delete_drinks_eq in Hs.
      destruct (one_or_none_by_id id st); settle_reply.
Qed.





(** C10: a [POST], [PATCH] or [DELETE] request (any request, in fact) that
    is answered with a failure (422, 400, 404, or 401 for an authorization
    failure, and there is no other) leaves the table exactly as it was: the
    failure comes before any insert, update or delete. *)
Theorem failed_request_leaves_store (idp : authority) (req : request)
  (st st' : store) (r : response) :
  serve idp req st = (Some r, st') ->
  status r <> 200%Z ->
  st' = st /\ In (status r) [422; 400; 404; 401]%Z.
Proof.
  intros Hs Hne.
  destruct (failure_cases idp req st st' r Hs Hne)
    as (E & [ -> | [ -> | [ -> | (e & ->) ] ] ]); split; simpl; auto.
Qed.

Lemma failed_request_leaves_store_witness :
  st_water = st_water /\ In 400%Z [422; 400; 404; 401]%Z.
Proof.
  apply (failed_request_leaves_store idp0 (as_manager POST_drinks water)
           st_water st_water resource_not_found_400).
  - reflexivity.
  - simpl. lia.
Defined.

(* ================================================================== *)
(** ** Further properties of the handlers *)

Lemma wf_json_dict_get (kvs : list (string * json)) (key : string) :
  wf_json (JObj kvs) -> wf_json (dict_get kvs key).
Proof.
  intros Hwf. unfold dict_get. destruct (assoc key kvs) eqn:E.
  - exact (wf_json_assoc kvs key j Hwf E).
  - exact I.
Qed.

Lemma long_dumped (d : Drink) (v : json) :
  wf_json v -> recipe d = dumps v ->
  long d = Some (JObj [("id", JInt (drink_id d)); ("title", title d);
                       ("recipe", v)]).
Proof. intros Hwf E. unfold long. now rewrite E, loads_dumps. Qed.

(** X1: what [create_drinks] decides on a dict body: 422 exactly for the
    empty-string title, 400 exactly for another title that a row of the table
    has; whenever it answers 422 or 400 the table is left as it was, and
    whenever it answers neither exactly one row, the new drink with the
    store's next identifier, is appended. *)
Theorem create_drinks_decision (claims : Auth.payload)
  (kvs : list (string * json)) (st : store) :
  (fst (create_drinks claims (JObj kvs) st) = Abort 422
   <-> dict_get kvs "title" = JStr EmptyString)
  /\ (fst (create_drinks claims (JObj kvs) st) = Abort 400
      <-> dict_get kvs "title" <> JStr EmptyString /\
          exists d, In d (rows st) /\ title d = dict_get kvs "title")
  /\ (fst (create_drinks claims (JObj kvs) st) = Abort 422 \/
      fst (create_drinks claims (JObj kvs) st) = Abort 400 ->
      snd (create_drinks claims (JObj kvs) st) = st)
  /\ (fst (create_drinks claims (JObj kvs) st) <> Abort 422 ->
      fst (create_drinks claims (JObj kvs) st) <> Abort 400 ->
      snd (create_drinks claims (JObj kvs) st)
      = {| rows := rows st ++ [created st (dict_get kvs "title")
                                 (dumps (dict_get kvs "recipe"))];
           next_id := (next_id st + 1)%Z |}).
Proof.
  rewrite create_drinks_eq.
  destruct (eq_str (dict_get kvs "title") EmptyString) eqn:Et.
  - apply eq_str_empty in Et. split; [ | split; [ | split ] ].
    + split; [ intros _; exact Et | reflexivity ].
    + split; [ discriminate | intros (Hne & _); contradiction ].
    + reflexivity.
    + intros H. now contradiction H.
  - assert (Hne : dict_get kvs "title" <> JStr EmptyString).
    { intros H. apply eq_str_empty in H. congruence. }
    destruct (first_by_title (dict_get kvs "title") st) as [ d | ] eqn:Ef;
      simpl truthy; cbv iota.
    + unfold first_by_title in Ef. apply find_some in Ef.
      destruct Ef as [Hin Heq]. apply json_eqb_true in Heq.
      split; [ | split; [ | split ] ].
      * split; [ discriminate | intros H; contradiction ].
      * split; [ intros _; split; [ exact Hne | now exists d ] | reflexivity ].
      * reflexivity.
      * intros _ H. now contradiction H.
    + cbv zeta. split; [ | split; [ | split ] ].
      * split; [ destruct (long _); discriminate | intros H; contradiction ].
      * split; [ destruct (long _); discriminate | ].
        intros (_ & d & Hin & Heq). unfold first_by_title in Ef.
        apply (find_none _ _ Ef) in Hin.
        rewrite Heq, json_eqb_refl in Hin. discriminate.
      * intros [ H | H ]; destruct (long _); discriminate.
      * intros _ _. now destruct (long _).
Qed.

(** X2: [json.loads] reads every Python value back from the text [json.dumps]
    gives it, so two values with the same text are the same value: what a
    handler stores for a recipe determines the recipe. *)
Theorem json_round_trip (v : json) :
  wf_json v ->
  loads (dumps v) = Some v /\
  (forall w, wf_json w -> dumps w = dumps v -> w = v).
Proof.
  intros Hwf. split; [ now apply loads_dumps | ].
  intros w Hw E. pose proof (loads_dumps w Hw) as Hl.
  rewrite E, (loads_dumps v Hwf) in Hl. now injection Hl.
Qed.

Lemma json_round_trip_witness :
  loads (dumps water_recipe) = Some water_recipe /\
  (forall w, wf_json w -> dumps w = dumps water_recipe -> w = water_recipe).
Proof.
  apply (json_round_trip water_recipe).
  simpl. repeat split; repeat constructor; simpl; intuition discriminate.
Defined.

Lemma update_keeps_other (d : Drink) (st : store) (x : Drink) :
  In x (rows st) -> drink_id x <> drink_id d -> In x (rows (update d st)).
Proof.
  intros Hin Hne. simpl. apply in_map_iff. exists x. split; [ | exact Hin ].
  destruct (Z.eqb_spec (drink_id x) (drink_id d)); [ contradiction | reflexivity ].
Qed.

Lemma update_puts (d d' : Drink) (st : store) :
  In d (rows st) -> drink_id d' = drink_id d -> In d' (rows (update d' st)).
Proof.
  intros Hin E. simpl. apply in_map_iff. exists d. split; [ | exact Hin ].
  now rewrite <- E, Z.eqb_refl.
Qed.

(** X3: a [PATCH /drinks/{id}] with the [patch:drinks] permission granted, on
    the identifier of a drink of the table and with a dict body, is answered
    with status 200 and the detailed view of the updated drink, whose recipe
    is the supplied value ([None] without one); the row is rewritten in
    place: identifiers, their order and the identifier counter stay, and
    every other row is kept. *)
Theorem patch_existing_updates_row (idp : authority) (req : request)
  (st : store) (claims : Auth.payload) (kvs : list (string * json))
  (d : Drink) :
  wf_store st ->
  target req = PATCH_drinks (drink_id d) ->
  authorize idp "patch:drinks" (authorization req) = inr claims ->
  get_json req = JObj kvs ->
  wf_json (JObj kvs) ->
  In d (rows st) ->
  serve idp req st =
  (Some {| status := 200;
           body := JObj [("success", JBool true);
                         ("drinks",
                          JArr [JObj [("id", JInt (drink_id d));
                                      ("title", title (patched d kvs));
                                      ("recipe", dict_get kvs "recipe")]])] |},
   update (patched d kvs) st)
  /\ map drink_id (rows (update (patched d kvs) st)) = map drink_id (rows st)
  /\ next_id (update (patched d kvs) st) = next_id st
  /\ In (patched d kvs) (rows (update (patched d kvs) st))
  /\ (forall x, In x (rows st) -> x <> d ->
                In x (rows (update (patched d kvs) st))).
Proof.
  intros Hwf Ht Ha Hb Hwb Hin. split; [ | split; [ | split; [ | split ] ] ].
  - rewrite (serve_patch idp req st claims _ Ht Ha), Hb. unfold run.
    rewrite patch_drinks_eq, (by_id_found st d Hwf Hin).
    rewrite (long_dumped (patched d kvs) (dict_get kvs "recipe"));
      [ reflexivity | now apply wf_json_dict_get | reflexivity ].
  - apply update_ids.
  - reflexivity.
  - now apply (update_puts d).
  - intros x Hx Hne. apply update_keeps_other; [ exact Hx | ].
    simpl. intros E. apply Hne. destruct Hwf as (Hnd & _ & _).
    now apply (same_id_same_row (rows st)).
Qed.

Lemma patch_existing_updates_row_witness :
  serve idp0
        (as_manager (PATCH_drinks 1)
           (JObj [("title", JStr "Still water"); ("recipe", JArr [])]))
        st_water
  = (Some {| status := 200;
             body := JObj [("success", JBool true);
                           ("drinks",
                            JArr [JObj [("id", JInt 1);
                                        ("title", JStr "Still water");
                                        ("recipe", JArr [])]])] |},
     {| rows := [{| drink_id := 1; title := JStr "Still water";
                    recipe := "[]" |}];
        next_id := 2 |})
  /\ [1%Z] = [1%Z]
  /\ 2%Z = 2%Z
  /\ In {| drink_id := 1; title := JStr "Still water"; recipe := "[]" |}
        [{| drink_id := 1; title := JStr "Still water"; recipe := "[]" |}]
  /\ (forall x, In x [water_row] -> x <> water_row ->
                In x [{| drink_id := 1; title := JStr "Still water";
                         recipe := "[]" |}]).
Proof.
  apply (patch_existing_updates_row idp0
           (as_manager (PATCH_drinks 1)
              (JObj [("title", JStr "Still water"); ("recipe", JArr [])]))
           st_water manager
           [("title", JStr "Still water"); ("recipe", JArr [])] water_row).
  - repeat split.
    + simpl. constructor; [ intros [] | constructor ].
    + intros d [ <- | [] ]. reflexivity.
    + intros d [ <- | [] ]. discriminate.
  - reflexivity.
  - reflexivity.
  - reflexivity.
  - simpl. repeat split; repeat constructor; simpl; intuition discriminate.
  - simpl. now left.
Defined.

Lemma find_updated (i : Z) (d' : Drink) (l : list Drink) :
  drink_id d' = i ->
  find (fun x => Z.eqb (drink_id x) i)
       (map (fun x => if Z.eqb (drink_id x) (drink_id d') then d' else x) l)
  = match find (fun x => Z.eqb (drink_id x) i) l with
    | Some _ => Some d'
    | None => None
    end.
Proof.
  intros <-. induction l as [ | x l IH ]; simpl; [ reflexivity | ].
  destruct (Z.eqb_spec (drink_id x) (drink_id d')) as [ Hx | Hx ]; simpl.
  - now rewrite Z.eqb_refl.
  - destruct (Z.eqb_spec (drink_id x) (drink_id d')); [ contradiction | ].
    exact IH.
Qed.

Lemma update_twice (d' : Drink) (st : store) :
  update d' (update d' st) = update d' st.
Proof.
  unfold update. simpl. f_equal. rewrite map_map. apply map_ext. intros x.
  destruct (Z.eqb_spec (drink_id x) (drink_id d')) as [ E | E ].
  - now rewrite Z.eqb_refl.
  - destruct (Z.eqb_spec (drink_id x) (drink_id d')); [ contradiction | reflexivity ].
Qed.

Lemma patched_twice (d : Drink) (kvs : list (string * json)) :
  patched (patched d kvs) kvs = patched d kvs.
Proof.
  unfold patched. simpl.
  now destruct (eq_str (dict_get kvs "title") EmptyString).
Qed.

(** X4: [patch_drinks] is idempotent: running it a second time with the same
    identifier and body gives the same answer as the first run and leaves
    the table the first run left, whatever the identifier and the body. *)
Theorem patch_drinks_idempotent (claims : Auth.payload) (id : Z) (b : json)
  (st : store) :
  run (patch_drinks claims id b) (snd (run (patch_drinks claims id b) st))
  = run (patch_drinks claims id b) st.
Proof.
  unfold run. rewrite !patch_drinks_eq.
  destruct (one_or_none_by_id id st) as [ d | ] eqn:E.
  - destruct (by_id_some _ _ _ E) as [_ Hid].
    assert (Hf : forall kvs,
               one_or_none_by_id id (update (patched d kvs) st)
               = Some (patched d kvs)).
    { intros kvs. unfold one_or_none_by_id.
      change (rows (update (patched d kvs) st))
        with (map (fun x => if Z.eqb (drink_id x) (drink_id (patched d kvs))
                            then patched d kvs else x) (rows st)).
      rewrite (find_updated id (patched d kvs) (rows st) Hid).
      unfold one_or_none_by_id in E. now rewrite E. }
    destruct b as [ | x | x | x | l | kvs ]; simpl; try (now rewrite E).
    destruct (long (patched d kvs)) eqn:El; simpl;
      rewrite Hf, patched_twice, El, update_twice; reflexivity.
  - simpl. now rewrite E.
Qed.

Lemma deleted_is_gone (i : Z) (d : Drink) (st : store) :
  drink_id d = i -> one_or_none_by_id i (delete d st) = None.
Proof.
  intros E. apply by_id_absent. intros x Hx. simpl in Hx.
  apply filter_In in Hx. destruct Hx as [_ Hx].
  apply negb_true_iff, Z.eqb_neq in Hx. congruence.
Qed.

(** X5: a second [delete_drinks] of the same identifier always fails with 404
    and leaves the table the first one left, whether the first one found a
    row or not. *)
Theorem delete_drinks_twice_is_404 (claims : Auth.payload) (id : Z)
  (st : store) :
  run (delete_drinks claims id) (snd (run (delete_drinks claims id) st))
  = (Some resource_not_found, snd (run (delete_drinks claims id) st)).
Proof.
  unfold run. rewrite !delete_drinks_eq.
  destruct (one_or_none_by_id id st) as [ d | ] eqn:E; simpl.
  - destruct (by_id_some _ _ _ E) as [_ Hid].
    now rewrite (deleted_is_gone id d st Hid).
  - now rewrite E.
Qed.

Lemma create_drinks_store (claims : Auth.payload) (kvs : list (string * json))
  (st : store) :
  dict_get kvs "title" <> JStr EmptyString ->
  first_by_title (dict_get kvs "title") st = None ->
  snd (create_drinks claims (JObj kvs) st)
  = {| rows := rows st ++ [created st (dict_get kvs "title")
                             (dumps (dict_get kvs "recipe"))];
       next_id := (next_id st + 1)%Z |}.
Proof.
  intros Hne Hf. rewrite create_drinks_eq, (eq_str_nonempty _ Hne), Hf.
  simpl truthy. cbv iota zeta. now destruct (long _).
Qed.

(** X6: repeating [create_drinks] with the same dict body, whose title is not
    the empty string, always fails with 400 the second time and inserts
    nothing more, whatever the first run did. *)
Theorem create_drinks_twice_is_400 (claims : Auth.payload)
  (kvs : list (string * json)) (st : store) :
  dict_get kvs "title" <> JStr EmptyString ->
  run (create_drinks claims (JObj kvs))
      (snd (run (create_drinks claims (JObj kvs)) st))
  = (Some resource_not_found_400,
     snd (run (create_drinks claims (JObj kvs)) st)).
Proof.
  intros Hne.
  assert (Hs : snd (run (create_drinks claims (JObj kvs)) st)
               = snd (create_drinks claims (JObj kvs) st)).
  { unfold run. now destruct (create_drinks claims (JObj kvs) st). }
  rewrite Hs. unfold run at 1.
  destruct (first_by_title (dict_get kvs "title") st) as [ d | ] eqn:Ef.
  - assert (E : snd (create_drinks claims (JObj kvs) st) = st).
    { now rewrite create_drinks_eq, (eq_str_nonempty _ Hne), Ef. }
    rewrite E, create_drinks_eq, (eq_str_nonempty _ Hne), Ef. reflexivity.
  - rewrite (create_drinks_store claims kvs st Hne Ef).
    rewrite create_drinks_eq, (eq_str_nonempty _ Hne).
    rewrite (first_by_title_found (dict_get kvs "title") _
               (created st (dict_get kvs "title")
                  (dumps (dict_get kvs "recipe"))));
      [ reflexivity | | reflexivity ].
    simpl. apply in_or_app. right. now left.
Qed.

Lemma create_drinks_twice_is_400_witness :
  run (create_drinks manager water)
      (snd (run (create_drinks manager water) Store.empty))
  = (Some resource_not_found_400,
     snd (run (create_drinks manager water) Store.empty)).
Proof.
  apply (create_drinks_twice_is_400 manager
           [("title", JStr "Water"); ("recipe", water_recipe)] Store.empty).
  discriminate.
Defined.

Lemma find_app_none (A : Type) (f : A -> bool) (l l' : list A) :
  find f l = None -> find f (l ++ l') = find f l'.
Proof.
  induction l as [ | x l IH ]; simpl; [ reflexivity | ].
  destruct (f x); [ discriminate | exact IH ].
Qed.

Lemma filter_all (A : Type) (f : A -> bool) (l : list A) :
  (forall x, In x l -> f x = true) -> filter f l = l.
Proof.
  induction l as [ | x l IH ]; simpl; intros H; [ reflexivity | ].
  rewrite (H x (or_introl eq_refl)), IH; [ reflexivity | ].
  intros y Hy. apply H. now right.
Qed.

(** X7: deleting the drink that [create_drinks] has just inserted gives back
    the rows the table had, in their order; the identifier counter does not
    go back, so the identifier is not handed out again. *)
Theorem create_then_delete_restores_rows (claims : Auth.payload)
  (kvs : list (string * json)) (st : store) :
  wf_store st ->
  dict_get kvs "title" <> JStr EmptyString ->
  (forall d, In d (rows st) -> title d <> dict_get kvs "title") ->
  let st1 := snd (run (create_drinks claims (JObj kvs)) st) in
  run (delete_drinks claims (next_id st)) st1
  = (Some {| status := 200;
             body := JObj [("success", JBool true);
                           ("deleted", JInt (next_id st))] |},
     {| rows := rows st; next_id := (next_id st + 1)%Z |}).
Proof.
  intros (Hnd & Hlt & _) Hne Hnew st1.
  assert (Hs : st1
               = {| rows := rows st ++ [created st (dict_get kvs "title")
                                          (dumps (dict_get kvs "recipe"))];
                    next_id := (next_id st + 1)%Z |}).
  { unfold st1, run.
    rewrite <- (create_drinks_store claims kvs st Hne
                  (first_by_title_absent _ _ Hnew)).
    now destruct (create_drinks claims (JObj kvs) st). }
  rewrite Hs. clear st1 Hs. unfold run. rewrite delete_drinks_eq.
  set (c := created st (dict_get kvs "title") (dumps (dict_get kvs "recipe"))).
  assert (Hfind : one_or_none_by_id (next_id st)
                    {| rows := rows st ++ [c]; next_id := (next_id st + 1)%Z |}
                  = Some c).
  { unfold one_or_none_by_id. simpl. rewrite find_app_none.
    - simpl. now rewrite Z.eqb_refl.
    - apply (by_id_absent (next_id st) st). intros d Hd. apply Hlt in Hd. lia. }
  rewrite Hfind. unfold delete. simpl. rewrite filter_app. simpl.
  rewrite Z.eqb_refl. simpl. rewrite List.app_nil_r.
  rewrite filter_all; [ reflexivity | ].
  intros x Hx. apply negb_true_iff, Z.eqb_neq. apply Hlt in Hx. lia.
Qed.

Lemma create_then_delete_restores_rows_witness :
  run (delete_drinks manager 2)
      (snd (run (create_drinks manager tea) st_water))
  = (Some {| status := 200;
             body := JObj [("success", JBool true); ("deleted", JInt 2)] |},
     {| rows := [water_row]; next_id := 3 |}).
Proof.
  apply (create_then_delete_restores_rows manager [("title", JStr "Tea")]
           st_water).
  - repeat split.
    + simpl. constructor; [ intros [] | constructor ].
    + intros d [ <- | [] ]. reflexivity.
    + intros d [ <- | [] ]. discriminate.
  - discriminate.
  - intros d [ <- | [] ]. discriminate.
Defined.

(** X8: the two [GET] routes never write: whatever the credentials and whatever
    they answer, the table after the request is the table before it. *)
Theorem get_routes_read_only (idp : authority) (req : request) (st : store) :
  target req = GET_drinks \/ target req = GET_drinks_detail ->
  snd (serve idp req st) = st.
Proof.
  intros Ht. rewrite snd_serve. unfold view, requires_auth.
  destruct Ht as [ -> | -> ].
  - unfold get_drinks. apply (read_only []).
  - destruct (authorize _ _ _); [ reflexivity | ].
    unfold get_drinks_detail. apply (read_only []).
Qed.

Lemma get_routes_read_only_witness :
  snd (serve idp0 (anonymous GET_drinks_detail) st_tea) = st_tea.
Proof.
  apply (get_routes_read_only idp0 (anonymous GET_drinks_detail) st_tea).
  now right.
Defined.

(** X9: every response of the application, on every route, carries the
    [success] flag, and the flag is true exactly when the status is 200; the
    only reply without the flag is the framework's 500 page, for an exception
    that no handler of [api.py] catches. *)
Theorem reply_flags_success (idp : authority) (req : request)
  (st st' : store) (rep : reply) :
  answer idp req st = (rep, st') ->
  match rep with
  | AppResponse r =>
      field "success" (body r) = Some (JBool (Z.eqb (status r) 200))
  | ErrorPage c => c = 500%Z
  end.
Proof.
  intros Hs.
  destruct (reply_cases idp req st st' rep Hs)
    as [ (b & ->) | [ -> | [ -> | [ -> | [ (e & ->) | -> ] ] ] ] ];
    reflexivity.
Qed.

Lemma reply_flags_success_witness :
  field "success" (body resource_not_found) = Some (JBool false).
Proof.
  apply (reply_flags_success idp0 (as_manager (DELETE_drinks 7) JNull)
           st_water st_water (AppResponse resource_not_found)).
  reflexivity.
Defined.

(** X10: from the empty table no sequence of requests, whatever their bodies and
    credentials, leads to a table with two rows of one identifier, with an
    identifier at or above the next one to be generated, or with the empty
    string as a title. *)
Theorem served_tables_keep_invariant (idp : authority) (st : store) :
  reachable idp Store.empty st ->
  wf_store st /\ (1 <= next_id st)%Z.
Proof.
  intros Hr. split.
  - exact (reachable_wf idp Store.empty st wf_empty Hr).
  - exact (reachable_next_id idp Store.empty st Hr).
Qed.

Lemma served_tables_keep_invariant_witness :
  wf_store (snd (serve idp0 (as_manager POST_drinks water) Store.empty))
  /\ (1 <= next_id (snd (serve idp0 (as_manager POST_drinks water)
                           Store.empty)))%Z.
Proof.
  apply (served_tables_keep_invariant idp0).
  apply reach_step. apply reach_refl.
Defined.

(** X11: a [POST] or [PATCH] whose JSON body is not an object raises at
    [body.get]: no handler of the application answers, and the table is
    left as it was (for [PATCH], after the row was found). *)
Theorem non_object_body_faults (claims : Auth.payload) (id : Z) (b : json)
  (st : store) :
  attr_get b = None ->
  run (create_drinks claims b) st = (None, st)
  /\ (forall d, one_or_none_by_id id st = Some d ->
                run (patch_drinks claims id b) st = (None, st)).
Proof.
  intros Hb. split.
  - unfold run. now rewrite (create_drinks_no_dict claims b st Hb).
  - intros d Hd. unfold run. rewrite patch_drinks_eq, Hd.
    destruct b; try reflexivity. discriminate.
Qed.

Lemma non_object_body_faults_witness :
  run (create_drinks manager (JArr [])) st_water = (None, st_water)
  /\ (forall d, one_or_none_by_id 1 st_water = Some d ->
                run (patch_drinks manager 1 (JArr [])) st_water
                = (None, st_water)).
Proof.
  apply (non_object_body_faults manager 1 (JArr []) st_water).
  reflexivity.
Defined.

(** X12: [patch_drinks] does not check the title against the other rows: given
    the title of another drink it does not answer 400, and the table it
    leaves has two rows of different identifiers with that title. *)
Theorem patch_can_duplicate_title (claims : Auth.payload)
  (kvs : list (string * json)) (st : store) (d1 d2 : Drink) :
  wf_store st ->
  In d1 (rows st) ->
  In d2 (rows st) ->
  drink_id d1 <> drink_id d2 ->
  dict_get kvs "title" = title d2 ->
  fst (run (patch_drinks claims (drink_id d1) (JObj kvs)) st)
  <> Some resource_not_found_400
  /\ In (patched d1 kvs)
        (rows (snd (run (patch_drinks claims (drink_id d1) (JObj kvs)) st)))
  /\ In d2 (rows (snd (run (patch_drinks claims (drink_id d1) (JObj kvs)) st)))
  /\ title (patched d1 kvs) = title d2
  /\ drink_id (patched d1 kvs) <> drink_id d2.
Proof.
  intros Hwf H1 H2 Hne Ht.
  assert (Hs : run (patch_drinks claims (drink_id d1) (JObj kvs)) st
               = (fst (run (patch_drinks claims (drink_id d1) (JObj kvs)) st),
                  update (patched d1 kvs) st)
               /\ fst (run (patch_drinks claims (drink_id d1) (JObj kvs)) st)
                  <> Some resource_not_found_400).
  { unfold run. rewrite patch_drinks_eq, (by_id_found st d1 Hwf H1).
    destruct (long (patched d1 kvs)); simpl; split;
      try reflexivity; discriminate. }
  destruct Hs as [Hs Hr]. rewrite Hs. cbn [fst snd].
  split; [ exact Hr | ]. split; [ | split; [ | split ] ].
  - now apply (update_puts d1).
  - apply update_keeps_other; [ exact H2 | ]. simpl. congruence.
  - destruct Hwf as (_ & _ & Hti).
    destruct (patched_title_rule d1 kvs) as [_ Hrule].
    rewrite Hrule; [ exact Ht | ]. rewrite Ht. now apply Hti.
  - exact Hne.
Qed.

Lemma patch_can_duplicate_title_witness :
  fst (run (patch_drinks manager 1 (JObj [("title", JStr "Tea")]))
           {| rows := [water_row;
                       {| drink_id := 2; title := JStr "Tea";
                          recipe := "null" |}];
              next_id := 3 |})
  <> Some resource_not_found_400
  /\ In (patched water_row [("title", JStr "Tea")])
        (rows (snd (run (patch_drinks manager 1 (JObj [("title", JStr "Tea")]))
                        {| rows := [water_row;
                                    {| drink_id := 2; title := JStr "Tea";
                                       recipe := "null" |}];
                           next_id := 3 |})))
  /\ In {| drink_id := 2; title := JStr "Tea"; recipe := "null" |}
        (rows (snd (run (patch_drinks manager 1 (JObj [("title", JStr "Tea")]))
                        {| rows := [water_row;
                                    {| drink_id := 2; title := JStr "Tea";
                                       recipe := "null" |}];
                           next_id := 3 |})))
  /\ title (patched water_row [("title", JStr "Tea")]) = JStr "Tea"
  /\ drink_id (patched water_row [("title", JStr "Tea")]) <> 2%Z.
Proof.
  apply (patch_can_duplicate_title manager [("title", JStr "Tea")]
           {| rows := [water_row;
                       {| drink_id := 2; title := JStr "Tea";
                          recipe := "null" |}];
              next_id := 3 |}
           water_row
           {| drink_id := 2; title := JStr "Tea"; recipe := "null" |}).
  - repeat split.
    + simpl. constructor; [ intros [ H | [] ]; discriminate | ].
      constructor; [ intros [] | constructor ].
    + intros d [ <- | [ <- | [] ] ]; reflexivity.
    + intros d [ <- | [ <- | [] ] ]; discriminate.
  - simpl. now left.
  - simpl. right. now left.
  - simpl. lia.
  - reflexivity.
Defined.

Lemma created_dumped (st : store) (kvs : list (string * json)) :
  wf_json (JObj kvs) ->
  dumped (created st (dict_get kvs "title") (dumps (dict_get kvs "recipe"))).
Proof.
  intros Hwf. exists (dict_get kvs "recipe").
  split; [ now apply wf_json_dict_get | reflexivity ].
Qed.

Lemma patched_dumped (d : Drink) (kvs : list (string * json)) :
  wf_json (JObj kvs) -> dumped (patched d kvs).
Proof.
  intros Hwf. exists (dict_get kvs "recipe").
  split; [ now apply wf_json_dict_get | reflexivity ].
Qed.

(** A request with a Python value as its body keeps every stored recipe the
    serialisation of a Python value. *)
Lemma view_dumped (idp : authority) (req : request) (st : store) :
  wf_json (get_json req) ->
  (forall d, In d (rows st) -> dumped d) ->
  forall d, In d (rows (snd (view idp req st))) -> dumped d.
Proof.
  intros Hwb Hall. unfold view, requires_auth.
  destruct (target req) as [ | | | id | id ].
  - unfold get_drinks. now rewrite (read_only []).
  - destruct (authorize _ _ _); [ exact Hall | ].
    unfold get_drinks_detail. now rewrite (read_only []).
  - destruct (authorize _ _ _) as [ e | claims ]; [ exact Hall | ].
    destruct (attr_get (get_json req)) eqn:Eb.
    + destruct (get_json req) as [ | | | | | kvs ]; try discriminate.
      rewrite create_drinks_eq.
      destruct (eq_str _ _); [ exact Hall | ].
      destruct (truthy _); [ exact Hall | ].
      assert (Hc : forall d,
                 In d (rows st ++
                       [created st (dict_get kvs "title")
                          (dumps (dict_get kvs "recipe"))]) ->
                 dumped d).
      { intros d Hd. apply in_app_or in Hd.
        destruct Hd as [ Hd | [ <- | [] ] ];
          [ now apply Hall | now apply created_dumped ]. }
      cbv zeta. destruct (long _); exact Hc.
    + now rewrite (create_drinks_no_dict _ _ _ Eb).
  - destruct (authorize _ _ _) as [ e | claims ]; [ exact Hall | ].
    rewrite patch_drinks_eq.
    destruct (one_or_none_by_id id st) as [ d0 | ]; [ | exact Hall ].
    destruct (get_json req) as [ | | | | | kvs ]; try exact Hall.
    assert (Hu : forall d, In d (rows (update (patched d0 kvs) st)) -> dumped d).
    { intros d Hd. simpl in Hd. apply in_map_iff in Hd.
      destruct Hd as (x & Hx & Hin).
      destruct (Z.eqb (drink_id x) (drink_id d0)); subst.
      - now apply patched_dumped.
      - now apply Hall. }
    destruct (long _); exact Hu.
  - destruct (authorize _ _ _) as [ e | claims ]; [ exact Hall | ].
    rewrite delete_drinks_eq.
    destruct (one_or_none_by_id id st) as [ d0 | ]; [ | exact Hall ].
    intros d Hd. simpl in Hd. apply filter_In in Hd. now apply Hall.
Qed.

Lemma reachable_py_dumped (idp : authority) (st : store) :
  reachable_py idp Store.empty st -> forall d, In d (rows st) -> dumped d.
Proof.
  intros Hr. induction Hr as [ | st req _ IH Hwb ].
  - intros d [].
  - rewrite snd_serve. now apply view_dumped.
Qed.

Lemma long_all (l : list Drink) :
  (forall d, In d l -> dumped d) ->
  exists es, traverse long l = Some es /\ Forall2 detailed l es.
Proof.
  induction l as [ | d l IH ]; intros H.
  - exists []. split; [ reflexivity | constructor ].
  - destruct (H d (or_introl eq_refl)) as (v & Hv & Ev).
    destruct IH as (es & Hes & Hall); [ intros x Hx; apply H; now right | ].
    exists (JObj [("id", JInt (drink_id d)); ("title", title d);
                  ("recipe", v)] :: es).
    split.
    + simpl. now rewrite (long_dumped d v Hv Ev), Hes.
    + constructor; [ now exists v | exact Hall ].
Qed.

(** X13: on every table that requests carrying Python values have built from the
    empty one, [GET /drinks-detail] with the [get:drinks-detail] permission
    granted is answered with status 200 and the detailed view of every row,
    in order, each with the recipe value that was stored for it: the
    detailed listing cannot fail on what the handlers themselves wrote. *)
Theorem detail_listing_never_faults (idp : authority) (req : request)
  (st : store) (claims : Auth.payload) :
  reachable_py idp Store.empty st ->
  target req = GET_drinks_detail ->
  authorize idp "get:drinks-detail" (authorization req) = inr claims ->
  exists l,
    serve idp req st =
    (Some {| status := 200;
             body := JObj [("success", JBool true); ("drinks", JArr l)] |},
     st)
    /\ Forall2 detailed (rows st) l.
Proof.
  intros Hr Ht Ha.
  destruct (long_all (rows st) (reachable_py_dumped idp st Hr))
    as (l & Hl & Hall).
  exists l. split; [ | exact Hall ].
  unfold serve, view. rewrite Ht.
  rewrite (serve_authorized idp req st _ get_drinks_detail claims Ha).
  unfold run, get_drinks_detail, bind, query, or_fault, ret, query_all.
  now rewrite Hl.
Qed.

Lemma detail_listing_never_faults_witness :
  exists l,
    serve idp0 (as_manager GET_drinks_detail JNull)
          (snd (serve idp0 (as_manager POST_drinks tea) Store.empty))
    = (Some {| status := 200;
               body := JObj [("success", JBool true); ("drinks", JArr l)] |},
       snd (serve idp0 (as_manager POST_drinks tea) Store.empty))
    /\ Forall2 detailed
               (rows (snd (serve idp0 (as_manager POST_drinks tea)
                                 Store.empty))) l.
Proof.
  apply (detail_listing_never_faults idp0 (as_manager GET_drinks_detail JNull)
           (snd (serve idp0 (as_manager POST_drinks tea) Store.empty))
           manager).
  - apply reach_py_step; [ apply reach_py_refl | ].
    simpl. repeat split; repeat constructor; simpl; intuition discriminate.
  - reflexivity.
  - reflexivity.
Defined.
